(** * kiscollect: the command-line entry point of the Kali Intelligence Suite

    A shallow embedding of [src/kis/kiscollect.py], the script that parses the
    command line, validates the configuration and hands over to the collector
    producer or to the interactive console.

    The script is one [try: ... except Exception] block.  Its collaborators
    ([Engine], [CollectorProducer], [KisCollectConsole], [logging],
    [tempfile], [os]) live in other modules; every call into them is recorded
    as an [event] of the run, in program order, and what the script reads
    from the outside (effective uid, file system, catalogue of workspaces) is
    a field of the [World] it runs in.  Collaborator calls are taken to return
    normally; the exceptions of the model are the ones the script raises
    itself, and the handler is a combinator that is specified for any body.

    Python's control flow is kept as it is written: [sys.exit] raises
    [SystemExit], which is not an [Exception] and therefore passes the
    handler; [with] blocks run their exit code on every way out; conditions
    are Python truth values ([None] and the empty string are false). *)

From Stdlib Require Import ZArith List String Ascii Bool Lia.
Import ListNotations.
Open Scope string_scope.
Open Scope Z_scope.
Open Scope list_scope.

(** ** Exceptions, exit and the run monad *)

(** Subclasses of [Exception] that can travel through the script. *)
Inductive exn : Type :=
| ValueError (msg : string)
| FileNotFoundError (msg : string)
| OtherException (cls msg : string).

(** How a piece of the script ends: it falls through with a value, an
    [Exception] is travelling upwards, or [SystemExit(code)] is. *)
Inductive res (A : Type) : Type :=
| Ret (a : A)
| Raise (e : exn)
| SysExit (code : Z).
Arguments Ret {A} a.
Arguments Raise {A} e.
Arguments SysExit {A} code.

(** Logging levels of the [logging] module that the script selects from. *)
Inductive log_level_t : Type := DEBUG | INFO | WARNING.

(** Errors that [argparse] reports through [parser.error]. *)
Inductive parse_error : Type :=
| InvalidChoice (opt value : string) (choices : list string)
| ExpectedOneArgument (opt : string)
| ExpectedAtLeastOneArgument (opt : string)
| InvalidIntValue (opt value : string)
| RequiredMissing (opts : list string)
| Unrecognized (tokens : list string).

(** The namespace returned by [parser.parse_args()].  One field per [dest];
    options without a default are [None] until given. *)
Record Namespace : Type := {
  collectors : list string;
  testing : bool;
  http_proxy : option string;
  print_commands : bool;
  vhost : option string;
  tld : bool;
  debug : bool;
  autostart : bool;
  strict : bool;
  restart : option (list string);
  analyze : bool;
  filter : option (list string);
  threads : Z;
  workspace : string;
  list_ : bool;
  output_dir : option string;
  cookies : option (list string);
  user_agent : option string;
  combo_file : option string;
  password_file : option string;
  user_file : option string;
  user : option string;
  domain : option string;
  password : option string;
  hashes : bool;
  wordlist_files : option (list string);
  force_delay_min : option Z;
  force_delay_max : option Z;
  force_timeout : option Z;
  dns_server : option string;
  proxychains : bool;
  continue : bool
}.

(** What the run does to the outside, in program order. *)
Inductive event : Type :=
| EvEngine                                  (* Engine() *)
| EvBindMetadata                            (* DeclarativeBase.metadata.bind = ... *)
| EvQueue                                   (* queue.Queue() *)
| EvProducer                                (* CollectorProducer(engine, queue) *)
| EvAddArguments                            (* producer.add_argparser_arguments *)
| EvHelp                                    (* argparse prints the help text *)
| EvArgparseError (e : parse_error)         (* usage and message on stderr *)
| EvCollectorConfig                         (* Collector() *)
| EvStderr (text : string)                  (* print(..., file=sys.stderr) *)
| EvPrintWorkspaces                         (* engine.print_workspaces() *)
| EvTempCreate (dir : string)               (* TemporaryDirectory.__enter__ *)
| EvTempRemove (dir : string)               (* TemporaryDirectory.__exit__ *)
| EvSetTesting                              (* engine.production = False *)
| EvProducerInit (arguments : Namespace)    (* producer.init(arguments) *)
| EvSessionOpen                             (* session_scope().__enter__ *)
| EvSessionClose                            (* session_scope().__exit__ *)
| EvGetWorkspace (name : string)            (* engine.get_workspace(session, name) *)
| EvLogConfig (file : string) (level : log_level_t)   (* logging.basicConfig *)
| EvLogInfo (text : string)                 (* logger.info *)
| EvProducerStart                           (* producer.start() *)
| EvProducerJoin                            (* producer.join() *)
| EvConsole (args : Namespace)              (* KisCollectConsole(...).cmdloop() *)
| EvTraceback (e : exn).                    (* traceback.print_exc(file=sys.stderr) *)

(** A computation: the events it emitted and how it ended. *)
Definition M (A : Type) : Type := (list event * res A)%type.

Definition ret {A} (a : A) : M A := ([], Ret a).

Definition bind {A B} (m : M A) (f : A -> M B) : M B :=
  match m with
  | (t, Ret a) => let (t', r) := f a in (t ++ t', r)
  | (t, Raise e) => (t, Raise e)
  | (t, SysExit c) => (t, SysExit c)
  end.

Definition emit (e : event) : M unit := ([e], Ret tt).
Definition raise {A} (e : exn) : M A := ([], Raise e).
Definition sys_exit {A} (code : Z) : M A := ([], SysExit code).

Notation "x <- m ;; k" := (bind m (fun x => k))
  (at level 61, m at next level, right associativity).
Notation "m ;; k" := (bind m (fun _ => k))
  (at level 61, right associativity).

(** [if c: body] with no [else]. *)
Definition when (c : bool) (body : M unit) : M unit :=
  if c then body else ret tt.

(** [with cm as x: body]: [enter] runs first, [leave] runs on every way out
    of the body, and the way out is kept. *)
Definition with_ {A} (enter leave : event) (body : M A) : M A :=
  let (t, r) := body in (enter :: t ++ [leave], r).

(** [try: body / except Exception as e: handler e].  [SystemExit] is a
    [BaseException] only and is not caught. *)
Definition try_except (body : M unit) (handler : exn -> M unit) : M unit :=
  match body with
  | (t, Raise e) => let (t', r) := handler e in (t ++ t', r)
  | other => other
  end.

(** Exit status of the interpreter once the main module has ended. *)
Definition exit_status (r : res unit) : Z :=
  match r with
  | Ret _ => 0
  | SysExit c => c
  | Raise _ => 1
  end.

(** ** Python truth values *)

Definition truthy (o : option string) : bool :=
  match o with
  | Some s => negb (s =? "")%string
  | None => false
  end.

Definition truthy_list (o : option (list string)) : bool :=
  match o with
  | Some (_ :: _) => true
  | _ => false
  end.

(** ** The command line

    [argparse] is Python's library, not code of this repository; what the
    script contributes is the table of options it declares.  The scan below
    is what [ArgumentParser.parse_args] does on the command lines on which
    its reading of a token needs no more than the table ([modelled]): every
    token is a declared option string, which [argparse] matches first, or
    does not begin with the prefix character, which makes it an argument,
    and the value of an integer option is a string of decimal digits.  On
    every other command line (abbreviated long options, [--opt=value],
    values attached to short options, clustered flags, the [--] separator,
    negative numbers) the outcome is not computed here: it is what the
    world says [argparse] does ([w_argparse]). *)

Inductive value : Type :=
| VNone
| VBool (b : bool)
| VStr (s : string)
| VInt (z : Z)
| VList (l : list string).

Inductive arg_type : Type := TStr | TInt.

Inductive action : Type :=
| StoreTrue                                                (* action="store_true" *)
| Store (ty : arg_type) (choices : option (list string))   (* one value *)
| StorePlus (choices : option (list string))               (* nargs='+' *)
| HelpAction.                                              (* -h, --help *)

Record option_spec : Type := {
  opt_strings : list string;
  opt_dest : string;
  opt_action : action;
  opt_required : bool;
  opt_default : value
}.

Definition flag (names : list string) (dest : string) : option_spec :=
  {| opt_strings := names; opt_dest := dest; opt_action := StoreTrue;
     opt_required := false; opt_default := VBool false |}.

Definition str_opt (names : list string) (dest : string) : option_spec :=
  {| opt_strings := names; opt_dest := dest; opt_action := Store TStr None;
     opt_required := false; opt_default := VNone |}.

Definition int_opt (names : list string) (dest : string) (default : value)
  : option_spec :=
  {| opt_strings := names; opt_dest := dest; opt_action := Store TInt None;
     opt_required := false; opt_default := default |}.

Definition plus_opt (names : list string) (dest : string)
  (choices : option (list string)) : option_spec :=
  {| opt_strings := names; opt_dest := dest; opt_action := StorePlus choices;
     opt_required := false; opt_default := VNone |}.

(** [CommandStatus.failed.name], [CommandStatus.terminated.name] and
    [CommandStatus.completed.name]: the name of an enum member is its
    identifier. *)
Definition restart_choices : list string :=
  ["failed"; "terminated"; "completed"].

(** Modelled from the spec: [VhostChoice] is declared in [database.model],
    which is not part of the source at hand; section 6 gives the choices of
    [--vhost] as off, domain and all. *)
Definition vhost_choices : list string := ["off"; "domain"; "all"].

(** Modelled from the spec: [producer.add_argparser_arguments] is defined in
    [collectors.os.collector], which is not part of the source at hand;
    section 6 gives one boolean switch per collector name. *)
Definition add_argparser_arguments (names : list string) : list option_spec :=
  map (fun n => flag [("--" ++ n)%string] n) names.

(** The help option that [ArgumentParser] adds itself. *)
Definition help_option : option_spec :=
  {| opt_strings := ["-h"; "--help"]; opt_dest := "help";
     opt_action := HelpAction; opt_required := false; opt_default := VNone |}.

(** [--restart], with [choices] and [nargs='+']. *)
Definition restart_option : option_spec :=
  plus_opt ["--restart"] "restart" (Some restart_choices).

(** [-w], [--workspace]: required; its default is never seen. *)
Definition workspace_option : option_spec :=
  {| opt_strings := ["-w"; "--workspace"]; opt_dest := "workspace";
     opt_action := Store TStr None;
     opt_required := true; opt_default := VInt 1 |}.

(** The options the script declares itself, in the order of the source. *)
Definition script_options : list option_spec :=
  [ flag ["--testing"] "testing";
    str_opt ["--http-proxy"] "http_proxy";
    flag ["-S"; "--print-commands"] "print_commands";
    {| opt_strings := ["--vhost"]; opt_dest := "vhost";
       opt_action := Store TStr (Some vhost_choices);
       opt_required := false; opt_default := VNone |};
    flag ["--tld"] "tld";
    flag ["--debug"] "debug";
    flag ["-a"; "--autostart"] "autostart";
    flag ["--strict"] "strict";
    restart_option;
    flag ["-A"; "--analyze"] "analyze";
    plus_opt ["--filter"] "filter" None;
    int_opt ["-t"; "--threads"] "threads" (VInt 1);
    workspace_option;
    flag ["-l"; "--list"] "list";
    str_opt ["-o"] "output_dir";
    plus_opt ["--cookies"] "cookies" None;
    str_opt ["--user-agent"] "user_agent";
    str_opt ["-C"; "--combo-file"] "combo_file";
    str_opt ["-P"; "--password-file"] "password_file";
    str_opt ["-U"; "--user-file"] "user_file";
    str_opt ["-u"; "--user"] "user";
    str_opt ["-d"; "--domain"] "domain";
    str_opt ["-p"; "--password"] "password";
    flag ["--hashes"] "hashes";
    plus_opt ["-L"; "--wordlist-files"] "wordlist_files" None;
    int_opt ["-D"; "--delay-min"] "force-delay-min" VNone;
    int_opt ["-M"; "--delay-max"] "force-delay-max" VNone;
    int_opt ["-T"; "--timeout"] "force-timeout" VNone;
    str_opt ["--dns-server"] "dns_server";
    flag ["--proxychains"] "proxychains";
    flag ["--continue"] "continue" ].

(** The whole table: the help option, the switches of the collectors, then
    the options of the script.  [argparse] refuses to declare an option
    string twice, so the names of the collectors are taken to differ from
    the options of the script. *)
Definition declared_options (collector_names : list string)
  : list option_spec :=
  help_option :: add_argparser_arguments collector_names ++ script_options.

(** *** Tokens *)

Definition is_digit (c : ascii) : bool :=
  ((48 <=? nat_of_ascii c) && (nat_of_ascii c <=? 57))%nat.

Fixpoint all_digits (s : string) : bool :=
  match s with
  | EmptyString => true
  | String c r => is_digit c && all_digits r
  end.

Definition some_digits (s : string) : bool :=
  negb (s =? "")%string && all_digits s.

Fixpoint digits_value (s : string) (acc : Z) : Z :=
  match s with
  | EmptyString => acc
  | String c r => digits_value r (10 * acc + Z.of_nat (nat_of_ascii c - 48))
  end.

(** A string of decimal digits, with or without a plus sign, short enough
    for [int] to convert it whatever its limit on the number of digits. *)
Definition decimal (s : string) : bool :=
  (String.length s <=? 1000)%nat &&
  match s with
  | String "+" r => some_digits r
  | _ => some_digits s
  end.

(** [int(s)] on strings of decimal digits, the only ones it is applied to
    on a modelled command line. *)
Definition int_of_string (s : string) : option Z :=
  match s with
  | String "+" r => if some_digits r then Some (digits_value r 0) else None
  | _ => if some_digits s then Some (digits_value s 0) else None
  end.

Definition starts_with_dash (t : string) : bool :=
  match t with
  | String "-" _ => true
  | _ => false
  end.

(** *** The namespace under construction *)

Definition attrs : Type := list (string * value).

Definition setattr (dest : string) (v : value) (ns : attrs) : attrs :=
  (dest, v) :: ns.

Fixpoint getattr (dest : string) (ns : attrs) : value :=
  match ns with
  | (d, v) :: r => if (d =? dest)%string then v else getattr dest r
  | [] => VNone
  end.

Definition defaults (specs : list option_spec) : attrs :=
  map (fun s => (opt_dest s, opt_default s)) specs.

Definition find_option (specs : list option_spec) (t : string)
  : option option_spec :=
  find (fun s => existsb (String.eqb t) (opt_strings s)) specs.

Definition mem (s : string) (l : list string) : bool :=
  existsb (String.eqb s) l.

(** On a modelled command line a token is read as an option exactly when
    it is a declared option string. *)
Definition is_option (specs : list option_spec) (t : string) : bool :=
  match find_option specs t with
  | Some _ => true
  | None => false
  end.

(** A token that [argparse] reads without looking further than the table. *)
Definition plain_token (specs : list option_spec) (t : string) : bool :=
  is_option specs t || negb (starts_with_dash t).

(** The token is an option that converts its value with [int]. *)
Definition takes_int (specs : list option_spec) (t : string) : bool :=
  match find_option specs t with
  | Some s =>
      match opt_action s with
      | Store TInt _ => true
      | _ => false
      end
  | None => false
  end.

(** The command lines that the scan models; [after_int] tells whether the
    token before is an integer option. *)
Fixpoint modelled_from (specs : list option_spec) (after_int : bool)
  (ts : list string) : bool :=
  match ts with
  | [] => true
  | t :: r =>
      plain_token specs t &&
      (negb after_int || is_option specs t || decimal t) &&
      modelled_from specs (takes_int specs t) r
  end.

Definition modelled (specs : list option_spec) (argv : list string) : bool :=
  modelled_from specs false argv.

(** The values that follow an option: the longest run of tokens that are
    not read as options. *)
Fixpoint take_args (specs : list option_spec) (ts : list string)
  : list string :=
  match ts with
  | t :: r => if is_option specs t then [] else t :: take_args specs r
  | [] => []
  end.

(** First value that is not among the choices, if any. *)
Definition check_value (choices : option (list string)) (vals : list string)
  : option string :=
  match choices with
  | Some cs => find (fun v => negb (mem v cs)) vals
  | None => None
  end.

Inductive parsed : Type :=
| Parsed (ns : attrs)
| ParseHelp
| ParseError (e : parse_error).

(** What one option does with the tokens that follow it: an error, the help
    exit, or the updated namespace and the number of tokens it consumed. *)
Inductive consumed : Type :=
| Took (ns : attrs) (n : nat)
| TookHelp
| TookError (e : parse_error).

Definition consume_optional (specs : list option_spec) (spec : option_spec)
  (opt : string) (rest : list string) (ns : attrs) : consumed :=
  match opt_action spec with
  | StoreTrue => Took (setattr (opt_dest spec) (VBool true) ns) 0
  | HelpAction => TookHelp
  | Store ty choices =>
      match take_args specs rest with
      | [] => TookError (ExpectedOneArgument opt)
      | v :: _ =>
          match ty with
          | TInt =>
              match int_of_string v with
              | Some z => Took (setattr (opt_dest spec) (VInt z) ns) 1
              | None => TookError (InvalidIntValue opt v)
              end
          | TStr =>
              match check_value choices [v] with
              | Some bad =>
                  TookError (InvalidChoice opt bad
                               (match choices with Some cs => cs | None => [] end))
              | None => Took (setattr (opt_dest spec) (VStr v) ns) 1
              end
          end
      end
  | StorePlus choices =>
      match take_args specs rest with
      | [] => TookError (ExpectedAtLeastOneArgument opt)
      | vals =>
          match check_value choices vals with
          | Some bad =>
              TookError (InvalidChoice opt bad
                           (match choices with Some cs => cs | None => [] end))
          | None =>
              Took (setattr (opt_dest spec) (VList vals) ns) (List.length vals)
          end
      end
  end.

(** Required options that were not seen, by their option strings. *)
Definition missing_required (specs : list option_spec) (seen : list string)
  : list string :=
  flat_map (fun s =>
              if opt_required s && negb (mem (opt_dest s) seen)
              then [String.concat "/" (opt_strings s)] else [])
           specs.

(** The scan of the command line.  [skip] counts the tokens that the option
    just handled has consumed as its values; [seen] lists the destinations
    that were set; [extras] collects, in reverse, the tokens nothing
    consumed.  At the end missing required options are reported before
    unrecognised tokens, as [parse_known_args] and [parse_args] do. *)
Fixpoint parse_loop (specs : list option_spec) (ts : list string) (skip : nat)
  (ns : attrs) (seen extras : list string) : parsed :=
  match ts with
  | [] =>
      match missing_required specs seen with
      | (_ :: _) as m => ParseError (RequiredMissing m)
      | [] =>
          match extras with
          | _ :: _ => ParseError (Unrecognized (rev extras))
          | [] => Parsed ns
          end
      end
  | t :: r =>
      match skip with
      | S k => parse_loop specs r k ns seen extras
      | O =>
          match find_option specs t with
          | Some spec =>
              match consume_optional specs spec t r ns with
              | Took ns' n =>
                  parse_loop specs r n ns' (opt_dest spec :: seen) extras
              | TookHelp => ParseHelp
              | TookError e => ParseError e
              end
          | None => parse_loop specs r 0 ns seen (t :: extras)
          end
      end
  end.

(** *** From attributes to the typed namespace *)

Definition as_bool (v : value) : bool :=
  match v with VBool b => b | _ => false end.

Definition as_str (v : value) : option string :=
  match v with VStr s => Some s | _ => None end.

Definition as_int (v : value) : option Z :=
  match v with VInt z => Some z | _ => None end.

Definition as_list (v : value) : option (list string) :=
  match v with VList l => Some l | _ => None end.

Definition namespace_of (collector_names : list string) (ns : attrs)
  : Namespace :=
  {| collectors := List.filter (fun n => as_bool (getattr n ns)) collector_names;
     testing := as_bool (getattr "testing" ns);
     http_proxy := as_str (getattr "http_proxy" ns);
     print_commands := as_bool (getattr "print_commands" ns);
     vhost := as_str (getattr "vhost" ns);
     tld := as_bool (getattr "tld" ns);
     debug := as_bool (getattr "debug" ns);
     autostart := as_bool (getattr "autostart" ns);
     strict := as_bool (getattr "strict" ns);
     restart := as_list (getattr "restart" ns);
     analyze := as_bool (getattr "analyze" ns);
     filter := as_list (getattr "filter" ns);
     threads := match getattr "threads" ns with VInt z => z | _ => 1 end;
     workspace := match getattr "workspace" ns with VStr s => s | _ => "1" end;
     list_ := as_bool (getattr "list" ns);
     output_dir := as_str (getattr "output_dir" ns);
     cookies := as_list (getattr "cookies" ns);
     user_agent := as_str (getattr "user_agent" ns);
     combo_file := as_str (getattr "combo_file" ns);
     password_file := as_str (getattr "password_file" ns);
     user_file := as_str (getattr "user_file" ns);
     user := as_str (getattr "user" ns);
     domain := as_str (getattr "domain" ns);
     password := as_str (getattr "password" ns);
     hashes := as_bool (getattr "hashes" ns);
     wordlist_files := as_list (getattr "wordlist_files" ns);
     force_delay_min := as_int (getattr "force-delay-min" ns);
     force_delay_max := as_int (getattr "force-delay-max" ns);
     force_timeout := as_int (getattr "force-timeout" ns);
     dns_server := as_str (getattr "dns_server" ns);
     proxychains := as_bool (getattr "proxychains" ns);
     continue := as_bool (getattr "continue" ns) |}.

(** ** The world of a run *)

Record World : Type := {
  w_prog : string;                  (* sys.argv[0] *)
  w_euid : Z;                       (* os.geteuid() *)
  w_isdir : string -> bool;         (* os.path.isdir *)
  w_exists : string -> bool;        (* os.path.exists *)
  w_workspaces : list string;       (* workspaces in the catalogue *)
  w_collectors : list string;       (* collector names known to the producer *)
  w_tempdir : string;               (* name chosen by TemporaryDirectory() *)
  w_logfile : string;               (* BaseConfig.get_log_file() *)
  w_argparse : list string -> parsed
             (* what argparse does with a command line that is not modelled *)
}.

(** What [argparse] makes of [sys.argv[1:]]: the scan on a modelled
    command line, what the world says on any other. *)
Definition read_command_line (w : World) (argv : list string) : parsed :=
  let specs := declared_options (w_collectors w) in
  if modelled specs argv
  then parse_loop specs argv 0 (defaults specs) [] []
  else w_argparse w argv.

(** [parser.parse_args()] on [sys.argv[1:]]: the namespace, or the help text
    and [SystemExit(0)], or usage and error on stderr and [SystemExit(2)]. *)
Definition parse_args (w : World) (argv : list string) : M Namespace :=
  match read_command_line w argv with
  | Parsed ns => ret (namespace_of (w_collectors w) ns)
  | ParseHelp => emit EvHelp ;; sys_exit 0
  | ParseError e => emit (EvArgparseError e) ;; sys_exit 2
  end.

(** ** The script *)

(** [o and p(o)] as a truth value, for an optional string [o]. *)
Definition and_then (o : option string) (p : string -> bool) : bool :=
  match o with
  | Some s => negb (s =? "")%string && p s
  | None => false
  end.

Definition privilege_message (w : World) : string :=
  (w_prog w ++ " must be executed with root privileges. afterwards, it is possible to execute individual commands with lower privileged users like 'nobody'")%string.

Definition output_dir_message (dir : string) : string :=
  ("output directory '" ++ dir ++ "' does not exist!")%string.

Definition user_exclusive_message : string :=
  "option --user-file and --user cannot be used together.".

Definition password_exclusive_message : string :=
  "option --password-file and --password cannot be used together.".

Definition wordlist_message (file : string) : string :=
  ("wordlist '" ++ file ++ "' not found.")%string.

Definition user_file_message (file : string) : string :=
  ("user file '" ++ file ++ "' not found.")%string.

Definition password_file_message (file : string) : string :=
  ("password file '" ++ file ++ "' not found.")%string.

Definition combo_file_message (file : string) : string :=
  ("combo file '" ++ file ++ "' not found.")%string.

(** [arguments = vars(args)] is the attribute dictionary of [args] itself,
    so [arguments["output_dir"] = d] also changes [args.output_dir]. *)
Definition set_output_dir (a : Namespace) (d : option string) : Namespace :=
  {| collectors := collectors a; testing := testing a;
     http_proxy := http_proxy a; print_commands := print_commands a;
     vhost := vhost a; tld := tld a; debug := debug a;
     autostart := autostart a; strict := strict a; restart := restart a;
     analyze := analyze a; filter := filter a; threads := threads a;
     workspace := workspace a; list_ := list_ a;
     output_dir := d;
     cookies := cookies a; user_agent := user_agent a;
     combo_file := combo_file a; password_file := password_file a;
     user_file := user_file a; user := user a; domain := domain a;
     password := password a; hashes := hashes a;
     wordlist_files := wordlist_files a;
     force_delay_min := force_delay_min a;
     force_delay_max := force_delay_max a;
     force_timeout := force_timeout a; dns_server := dns_server a;
     proxychains := proxychains a; continue := continue a |}.

(** Modelled from the spec: [Engine.get_workspace] is defined in
    [database.utils], which is not part of the source at hand; by section 7
    the run fails fast on a workspace that is not in the catalogue.  The
    call is an event, like every other call into a collaborator, and its
    result, which the script only tests for truth, is whether the
    workspace is in the catalogue of the world.  Whatever the callee may
    write itself is no output of the script and is not part of the event. *)
Definition get_workspace (w : World) (name : string) : M bool :=
  emit (EvGetWorkspace name) ;;
  ret (mem name (w_workspaces w)).

(** [for file in args.wordlist_files: if not os.path.exists(file): raise] *)
Fixpoint check_wordlists (w : World) (files : list string) : M unit :=
  match files with
  | [] => ret tt
  | file :: r =>
      when (negb (w_exists w file))
           (raise (FileNotFoundError (wordlist_message file))) ;;
      check_wordlists w r
  end.

(** The three assignments to [log_level], in the order of the source. *)
Definition log_level (args : Namespace) : log_level_t :=
  let log_level := INFO in
  let log_level := if analyze args then WARNING else log_level in
  let log_level := if debug args then DEBUG else log_level in
  log_level.

(** Construction of engine, queue and producer and of the parser. *)
Definition startup : M unit :=
  emit EvEngine ;;
  emit EvBindMetadata ;;
  emit EvQueue ;;
  emit EvProducer ;;
  emit EvAddArguments.

(** The block under [with tempfile.TemporaryDirectory() as temp_dir]. *)
Definition in_temp_dir (w : World) (argv : list string) (args : Namespace)
  (temp_dir : string) : M unit :=
  when (testing args) (emit EvSetTesting) ;;
  when (and_then (output_dir args) (fun d => negb (w_isdir w d)))
       (emit (EvStderr (output_dir_message
                          (match output_dir args with Some d => d | None => "" end))) ;;
        sys_exit 1) ;;
  let args :=
    set_output_dir args
      (if truthy (output_dir args) then output_dir args else Some temp_dir) in
  emit (EvProducerInit args) ;;
  with_ EvSessionOpen EvSessionClose
        (found <- get_workspace w (workspace args) ;;
         when (negb found) (sys_exit 1)) ;;
  when (truthy (user args) && truthy (user_file args))
       (raise (ValueError user_exclusive_message)) ;;
  when (truthy (password args) && truthy (password_file args))
       (raise (ValueError password_exclusive_message)) ;;
  when (truthy_list (wordlist_files args))
       (check_wordlists w
          (match wordlist_files args with Some l => l | None => [] end)) ;;
  when (and_then (user_file args) (fun f => negb (w_exists w f)))
       (raise (FileNotFoundError
                 (user_file_message
                    (match user_file args with Some f => f | None => "" end)))) ;;
  when (and_then (password_file args) (fun f => negb (w_exists w f)))
       (raise (FileNotFoundError
                 (password_file_message
                    (match password_file args with Some f => f | None => "" end)))) ;;
  when (and_then (combo_file args) (fun f => negb (w_exists w f)))
       (raise (FileNotFoundError
                 (combo_file_message
                    (match combo_file args with Some f => f | None => "" end)))) ;;
  let log_level := log_level args in
  when (negb (print_commands args))
       (emit (EvLogConfig (w_logfile w) log_level) ;;
        emit (EvLogInfo ("$ " ++ String.concat " " (w_prog w :: argv))%string)) ;;
  if print_commands args
  then emit EvProducerStart ;; emit EvProducerJoin
  else emit (EvConsole args).

(** Everything after [args = parser.parse_args()]. *)
Definition after_parse (w : World) (argv : list string) (args : Namespace)
  : M unit :=
  when (negb (w_euid w =? 0) && negb (print_commands args))
       (emit EvCollectorConfig ;;
        emit (EvStderr (privilege_message w)) ;;
        sys_exit 1) ;;
  when (list_ args) (emit EvPrintWorkspaces ;; sys_exit 1) ;;
  with_ (EvTempCreate (w_tempdir w)) (EvTempRemove (w_tempdir w))
        (in_temp_dir w argv args (w_tempdir w)).

(** The body of the [try]. *)
Definition main_body (w : World) (argv : list string) : M unit :=
  startup ;;
  args <- parse_args w argv ;;
  after_parse w argv args.

(** The script: the body under [except Exception as e], whose handler
    prints the traceback to stderr and ends. *)
Definition main (w : World) (argv : list string) : M unit :=
  try_except (main_body w argv) (fun e => emit (EvTraceback e)).

Definition trace (w : World) (argv : list string) : list event :=
  fst (main w argv).

Definition exit_code (w : World) (argv : list string) : Z :=
  exit_status (snd (main w argv)).

(** ** How a run ends

    The same script read as a decision table: which check, in program
    order, is the first to stop the run, and the events of a run that ends
    there.  [after_parse_ending] below proves that the table and the script
    agree. *)

Inductive ending : Type :=
| NotPrivileged
| ListedWorkspaces
| OutputDirMissing (dir : string)
| WorkspaceUnknown (name : string)
| UserConflict
| PasswordConflict
| WordlistMissing (file : string)
| UserFileMissing (file : string)
| PasswordFileMissing (file : string)
| ComboFileMissing (file : string)
| Started.

(** The value of an option when it is true and fails the test [p]. *)
Definition failing (o : option string) (p : string -> bool) : option string :=
  match o with
  | Some s => if negb (s =? "")%string && negb (p s) then Some s else None
  | None => None
  end.

Definition first_missing_wordlist (w : World) (a : Namespace)
  : option string :=
  match wordlist_files a with
  | Some l => find (fun f => negb (w_exists w f)) l
  | None => None
  end.

Definition ending_of (w : World) (a : Namespace) : ending :=
  if negb (w_euid w =? 0) && negb (print_commands a) then NotPrivileged
  else if list_ a then ListedWorkspaces
  else match failing (output_dir a) (w_isdir w) with
  | Some d => OutputDirMissing d
  | None =>
  if negb (mem (workspace a) (w_workspaces w))
  then WorkspaceUnknown (workspace a)
  else if truthy (user a) && truthy (user_file a) then UserConflict
  else if truthy (password a) && truthy (password_file a) then PasswordConflict
  else match first_missing_wordlist w a with
  | Some f => WordlistMissing f
  | None =>
  match failing (user_file a) (w_exists w) with
  | Some f => UserFileMissing f
  | None =>
  match failing (password_file a) (w_exists w) with
  | Some f => PasswordFileMissing f
  | None =>
  match failing (combo_file a) (w_exists w) with
  | Some f => ComboFileMissing f
  | None => Started
  end end end end end.

(** The directory handed to the producer as [output_dir]. *)
Definition working_dir (w : World) (a : Namespace) : string :=
  match output_dir a with
  | Some d => if (d =? "")%string then w_tempdir w else d
  | None => w_tempdir w
  end.

(** [args] after the assignment to [arguments["output_dir"]]. *)
Definition effective_args (w : World) (a : Namespace) : Namespace :=
  set_output_dir a (Some (working_dir w a)).

Definition startup_events : list event :=
  [EvEngine; EvBindMetadata; EvQueue; EvProducer; EvAddArguments].

Definition in_temp (w : World) (t : list event) : list event :=
  EvTempCreate (w_tempdir w) :: t ++ [EvTempRemove (w_tempdir w)].

Definition testing_events (a : Namespace) : list event :=
  if testing a then [EvSetTesting] else [].

(** Events of a run that got past the workspace lookup, before [tail]. *)
Definition validated (w : World) (a : Namespace) (tail : list event)
  : list event :=
  in_temp w (testing_events a ++
             EvProducerInit (effective_args w a) ::
             EvSessionOpen :: EvGetWorkspace (workspace a) ::
             EvSessionClose :: tail).

Definition start_events (w : World) (argv : list string) (a : Namespace)
  : list event :=
  if print_commands a
  then [EvProducerStart; EvProducerJoin]
  else [EvLogConfig (w_logfile w) (log_level a);
        EvLogInfo ("$ " ++ String.concat " " (w_prog w :: argv))%string;
        EvConsole (effective_args w a)].

Definition ending_run (w : World) (argv : list string) (a : Namespace)
  (e : ending) : M unit :=
  match e with
  | NotPrivileged =>
      ([EvCollectorConfig; EvStderr (privilege_message w)], SysExit 1)
  | ListedWorkspaces => ([EvPrintWorkspaces], SysExit 1)
  | OutputDirMissing d =>
      (in_temp w (testing_events a ++ [EvStderr (output_dir_message d)]),
       SysExit 1)
  | WorkspaceUnknown n =>
      (in_temp w (testing_events a ++
                  [EvProducerInit (effective_args w a);
                   EvSessionOpen; EvGetWorkspace n; EvSessionClose]),
       SysExit 1)
  | UserConflict => (validated w a [], Raise (ValueError user_exclusive_message))
  | PasswordConflict =>
      (validated w a [], Raise (ValueError password_exclusive_message))
  | WordlistMissing f =>
      (validated w a [], Raise (FileNotFoundError (wordlist_message f)))
  | UserFileMissing f =>
      (validated w a [], Raise (FileNotFoundError (user_file_message f)))
  | PasswordFileMissing f =>
      (validated w a [], Raise (FileNotFoundError (password_file_message f)))
  | ComboFileMissing f =>
      (validated w a [], Raise (FileNotFoundError (combo_file_message f)))
  | Started => (validated w a (start_events w argv a), Ret tt)
  end.

(** The level the claim describes: DEBUG when [--debug] is set, otherwise
    WARNING when [--analyze] is set, otherwise INFO. *)
Definition log_level_by_precedence (a : Namespace) : log_level_t :=
  if debug a then DEBUG
  else if analyze a then WARNING
  else INFO.

(** Collection is under way: the producer thread runs or the console, which
    owns the worker pool, has the control. *)
Definition is_collection (e : event) : bool :=
  match e with
  | EvProducerStart | EvProducerJoin | EvConsole _ => true
  | _ => false
  end.

Definition is_console (e : event) : bool :=
  match e with EvConsole _ => true | _ => false end.

Definition is_logging (e : event) : bool :=
  match e with EvLogConfig _ _ | EvLogInfo _ => true | _ => false end.

Definition is_traceback (e : event) : bool :=
  match e with EvTraceback _ => true | _ => false end.

(** ** Conditions under which a run gets to a given line *)

(** The privilege check lets the run pass. *)
Definition privileged (w : World) (a : Namespace) : bool :=
  (w_euid w =? 0) || print_commands a.

(** The run enters the [with] block of the temporary directory. *)
Definition enters_temp_dir (w : World) (a : Namespace) : bool :=
  privileged w a && negb (list_ a).

Definition output_dir_usable (w : World) (a : Namespace) : bool :=
  match failing (output_dir a) (w_isdir w) with
  | Some _ => false
  | None => true
  end.

(** The run gets to the workspace lookup. *)
Definition reaches_lookup (w : World) (a : Namespace) : bool :=
  enters_temp_dir w a && output_dir_usable w a.

(** The run gets to the checks of the credential options. *)
Definition reaches_validation (w : World) (a : Namespace) : bool :=
  reaches_lookup w a && mem (workspace a) (w_workspaces w).

Definition user_conflict (a : Namespace) : bool :=
  truthy (user a) && truthy (user_file a).

Definition password_conflict (a : Namespace) : bool :=
  truthy (password a) && truthy (password_file a).

(** The run gets to the checks of the referenced files. *)
Definition reaches_file_checks (w : World) (a : Namespace) : bool :=
  reaches_validation w a && negb (user_conflict a) && negb (password_conflict a).

(** The files whose existence the script tests: every word list, and the
    user, password and combo file when the option is true. *)
Definition referenced (a : Namespace) (f : string) : Prop :=
  (exists l, wordlist_files a = Some l /\ In f l) \/
  (user_file a = Some f /\ f <> "") \/
  (password_file a = Some f /\ f <> "") \/
  (combo_file a = Some f /\ f <> "").

(** [msg] is one of the four not-found messages, for file [f]. *)
Definition names_file (msg f : string) : Prop :=
  msg = wordlist_message f \/ msg = user_file_message f \/
  msg = password_file_message f \/ msg = combo_file_message f.

(** What a run that ends in a violated constraint writes to stderr about
    it. *)
Definition diagnostic (w : World) (e : ending) : option event :=
  match e with
  | NotPrivileged => Some (EvStderr (privilege_message w))
  | ListedWorkspaces => None
  | OutputDirMissing d => Some (EvStderr (output_dir_message d))
  | WorkspaceUnknown n => None
  | UserConflict => Some (EvTraceback (ValueError user_exclusive_message))
  | PasswordConflict =>
      Some (EvTraceback (ValueError password_exclusive_message))
  | WordlistMissing f =>
      Some (EvTraceback (FileNotFoundError (wordlist_message f)))
  | UserFileMissing f =>
      Some (EvTraceback (FileNotFoundError (user_file_message f)))
  | PasswordFileMissing f =>
      Some (EvTraceback (FileNotFoundError (password_file_message f)))
  | ComboFileMissing f =>
      Some (EvTraceback (FileNotFoundError (combo_file_message f)))
  | Started => None
  end.

(** The same world seen by another effective user. *)
Definition with_euid (w : World) (uid : Z) : World :=
  {| w_prog := w_prog w; w_euid := uid; w_isdir := w_isdir w;
     w_exists := w_exists w; w_workspaces := w_workspaces w;
     w_collectors := w_collectors w; w_tempdir := w_tempdir w;
     w_logfile := w_logfile w; w_argparse := w_argparse w |}.

(** The namespace of a command line that parses. *)
Definition args_of (w : World) (argv : list string) : Namespace :=
  match parse_args w argv with
  | (_, Ret a) => a
  | _ => namespace_of [] []
  end.

(** What the handler makes of the way the body ended. *)
Definition handled (m : M unit) : M unit :=
  match m with
  | (t, Raise e) => (t ++ [EvTraceback e], Ret tt)
  | other => other
  end.




(** ** Views of a trace *)

(** The two [with] blocks of the script, as they open and close. *)
Inductive bracket : Type := TempIn | SessionIn | SessionOut | TempOut.

Definition bracket_of (e : event) : list bracket :=
  match e with
  | EvTempCreate _ => [TempIn]
  | EvTempRemove _ => [TempOut]
  | EvSessionOpen => [SessionIn]
  | EvSessionClose => [SessionOut]
  | _ => []
  end.

Definition brackets (t : list event) : list bracket :=
  flat_map bracket_of t.

(** ** Sample worlds

    The runs below use modelled command lines only; what the sample worlds
    say of the others is never looked at. *)

Definition files_present : list string :=
  ["users.txt"; "passwords.txt"; "words.txt"; "combo.txt"].

Definition root_world : World :=
  {| w_prog := "kiscollect";
     w_euid := 0;
     w_isdir := fun d => (d =? "/tmp/out")%string;
     w_exists := fun f => mem f files_present;
     w_workspaces := ["osint"];
     w_collectors := ["tcpnmap"; "httpnikto"];
     w_tempdir := "/tmp/tmpkis";
     w_logfile := "/var/log/kis.log";
     w_argparse := fun _ => ParseError (Unrecognized []) |}.

Definition user_world : World :=
  {| w_prog := "kiscollect";
     w_euid := 1000;
     w_isdir := fun d => (d =? "/tmp/out")%string;
     w_exists := fun f => mem f files_present;
     w_workspaces := ["osint"];
     w_collectors := ["tcpnmap"; "httpnikto"];
     w_tempdir := "/tmp/tmpkis";
     w_logfile := "/var/log/kis.log";
     w_argparse := fun _ => ParseError (Unrecognized []) |}.

(** * Properties *)

(** ** The script and its decision table agree *)

Lemma check_wordlists_find (w : World) (l : list string) :
  check_wordlists w l =
  match find (fun f => negb (w_exists w f)) l with
  | Some f => raise (FileNotFoundError (wordlist_message f))
  | None => ret tt
  end.
Proof.
  induction l as [|f l IH]; simpl; [reflexivity|].
  destruct (w_exists w f); simpl.
  - rewrite IH. destruct (find _ l); reflexivity.
  - reflexivity.
Qed.

Lemma and_then_failing (o : option string) (p : string -> bool) :
  and_then o (fun s => negb (p s)) =
  match failing o p with Some _ => true | None => false end.
Proof.
  destruct o as [s|]; simpl; [|reflexivity].
  destruct (negb (s =? "")%string && negb (p s)); reflexivity.
Qed.

Lemma failing_some (o : option string) (p : string -> bool) (s : string) :
  failing o p = Some s -> o = Some s /\ s <> "" /\ p s = false.
Proof.
  destruct o as [x|]; simpl; [|discriminate].
  destruct (x =? "")%string eqn:Hx; simpl; [discriminate|].
  destruct (p x) eqn:Hp; simpl; [discriminate|].
  intros [= <-]. apply String.eqb_neq in Hx. auto.
Qed.

Lemma working_dir_if (w : World) (a : Namespace) :
  (if truthy (output_dir a) then output_dir a else Some (w_tempdir w))
  = Some (working_dir w a).
Proof.
  unfold working_dir, truthy.
  destruct (output_dir a) as [d|]; [|reflexivity].
  destruct (d =? "")%string; reflexivity.
Qed.

Lemma after_parse_ending (w : World) (argv : list string) (a : Namespace) :
  after_parse w argv a = ending_run w argv a (ending_of w a).
Proof.
  unfold after_parse, ending_of.
  destruct (negb (w_euid w =? 0) && negb (print_commands a)) eqn:Hpriv;
    [reflexivity|].
  destruct (list_ a) eqn:Hlist; [reflexivity|].
  unfold in_temp_dir. rewrite check_wordlists_find, working_dir_if.
  cbn [workspace user user_file password password_file wordlist_files
       combo_file print_commands set_output_dir output_dir].
  rewrite !and_then_failing.
  unfold ending_run, validated, in_temp, testing_events, start_events,
    effective_args, get_workspace, first_missing_wordlist, truthy_list.
  destruct (testing a);
  (destruct (failing (output_dir a) (w_isdir w)) as [d|] eqn:Hout;
   [apply failing_some in Hout as [-> _]; reflexivity|];
   destruct (mem (workspace a) (w_workspaces w)); [|reflexivity];
   destruct (truthy (user a) && truthy (user_file a)); [reflexivity|];
   destruct (truthy (password a) && truthy (password_file a)); [reflexivity|];
   destruct (wordlist_files a) as [[|f0 l]|];
   [| destruct (find _ (f0 :: l)); [reflexivity|] |];
   (destruct (failing (user_file a) (w_exists w)) as [f|] eqn:Hu;
    [apply failing_some in Hu as [-> _]; reflexivity|];
    destruct (failing (password_file a) (w_exists w)) as [f|] eqn:Hp;
    [apply failing_some in Hp as [-> _]; reflexivity|];
    destruct (failing (combo_file a) (w_exists w)) as [f|] eqn:Hc;
    [apply failing_some in Hc as [-> _]; reflexivity|];
    destruct (print_commands a); reflexivity)).
Qed.

Lemma main_handled (w : World) (argv : list string) :
  main w argv = handled (main_body w argv).
Proof.
  unfold main, try_except, handled.
  destruct (main_body w argv) as [t [u|e|c]]; reflexivity.
Qed.

Lemma parse_args_cases (w : World) (argv : list string) :
  (exists a, parse_args w argv = ret a) \/
  parse_args w argv = ([EvHelp], SysExit 0) \/
  (exists e, parse_args w argv = ([EvArgparseError e], SysExit 2)).
Proof.
  unfold parse_args.
  destruct (read_command_line w argv) as [ns| |e].
  - left. eexists. reflexivity.
  - right. left. reflexivity.
  - right. right. exists e. reflexivity.
Qed.

Lemma main_body_parsed (w : World) (argv : list string) (a : Namespace) :
  parse_args w argv = ret a ->
  main_body w argv =
  let (t, r) := ending_run w argv a (ending_of w a) in (startup_events ++ t, r).
Proof.
  intros Hp. unfold main_body. rewrite Hp.
  rewrite <- after_parse_ending.
  unfold startup, ret, emit, bind. cbn.
  destruct (after_parse w argv a) as [t r]. reflexivity.
Qed.

Lemma main_parsed (w : World) (argv : list string) (a : Namespace) :
  parse_args w argv = ret a ->
  main w argv =
  handled (let (t, r) := ending_run w argv a (ending_of w a) in
           (startup_events ++ t, r)).
Proof.
  intros Hp. rewrite main_handled, (main_body_parsed _ _ _ Hp). reflexivity.
Qed.

Lemma main_not_parsed (w : World) (argv : list string) (t : list event)
  (c : Z) :
  parse_args w argv = (t, SysExit c) ->
  main w argv = (startup_events ++ t, SysExit c).
Proof.
  intros Hp. rewrite main_handled. unfold main_body. rewrite Hp. reflexivity.
Qed.

Lemma parse_args_with_euid (w : World) (uid : Z) (argv : list string) :
  parse_args (with_euid w uid) argv = parse_args w argv.
Proof. reflexivity. Qed.

(** ** The privilege check and the listing of workspaces *)

(** Closes [~ In e l] and [In e l -> P] for an explicit list [l] none of
    whose elements is built like [e]. *)
Ltac absent :=
  let H := fresh "H" in
  intros H; cbn in H;
  repeat (destruct H as [H|H]; [discriminate H|]);
  contradiction.

Lemma ending_not_privileged (w : World) (a : Namespace) :
  w_euid w <> 0 -> print_commands a = false -> ending_of w a = NotPrivileged.
Proof.
  intros Hu Hp. unfold ending_of. rewrite Hp.
  apply Z.eqb_neq in Hu. rewrite Hu. reflexivity.
Qed.

Lemma privileged_condition (w : World) (a : Namespace) :
  negb (w_euid w =? 0) && negb (print_commands a) = negb (privileged w a).
Proof. unfold privileged. now rewrite negb_orb. Qed.

Lemma ending_listed (w : World) (a : Namespace) :
  privileged w a = true -> list_ a = true -> ending_of w a = ListedWorkspaces.
Proof.
  intros Hp Hl. unfold ending_of.
  rewrite privileged_condition, Hp, Hl. reflexivity.
Qed.

Lemma ending_with_euid (w : World) (uid : Z) (a : Namespace) :
  print_commands a = true -> ending_of (with_euid w uid) a = ending_of w a.
Proof.
  intros Hp. unfold ending_of. rewrite Hp, !andb_false_r. reflexivity.
Qed.

Lemma ending_run_with_euid (w : World) (uid : Z) (argv : list string)
  (a : Namespace) (e : ending) :
  ending_run (with_euid w uid) argv a e = ending_run w argv a e.
Proof. destruct e; reflexivity. Qed.

Lemma ending_privileged (w : World) (a : Namespace) :
  privileged w a = true -> ending_of w a <> NotPrivileged.
Proof.
  intros Hp. unfold ending_of. rewrite privileged_condition, Hp.
  cbn [negb].
  repeat match goal with
         | |- (if ?c then _ else _) <> _ => destruct c; [discriminate|]
         | |- match ?x with Some _ => _ | None => _ end <> _ =>
             destruct x; [discriminate|]
         end.
  discriminate.
Qed.

(** C2.  A command line that parses, run by a user other than root without
    [--print-commands], makes the script build the collector configuration,
    print to stderr that the program, by its name, must be executed with
    root privileges, and leave with status 1; nothing else happens after
    the start-up.  With [--print-commands] the run does not depend on the
    effective user at all and the configuration of the privilege branch is
    never built. *)
Theorem privilege_check (w : World) (argv : list string) (a : Namespace) :
  parse_args w argv = ret a ->
  (w_euid w <> 0 -> print_commands a = false ->
   main w argv =
     ([EvEngine; EvBindMetadata; EvQueue; EvProducer; EvAddArguments;
       EvCollectorConfig;
       EvStderr (w_prog w ++
              " must be executed with root privileges. afterwards, it is possible to execute individual commands with lower privileged users like 'nobody'")%string],
      SysExit 1)
   /\ exit_code w argv = 1) /\
  (print_commands a = true ->
   (forall uid, main (with_euid w uid) argv = main w argv) /\
   ~ In EvCollectorConfig (trace w argv)).
Proof.
  intros Hparse. split.
  - intros Hu Hp.
    assert (Hm : main w argv =
      (startup_events ++ [EvCollectorConfig; EvStderr (privilege_message w)],
       SysExit 1)).
    { rewrite (main_parsed _ _ _ Hparse), ending_not_privileged by assumption.
      reflexivity. }
    split; [exact Hm|]. unfold exit_code. rewrite Hm. reflexivity.
  - intros Hp. split.
    + intros uid.
      rewrite (main_parsed w _ _ Hparse).
      rewrite (main_parsed (with_euid w uid) argv a)
        by (rewrite parse_args_with_euid; exact Hparse).
      rewrite ending_with_euid by exact Hp.
      rewrite ending_run_with_euid. reflexivity.
    + unfold trace. rewrite (main_parsed _ _ _ Hparse).
      assert (Hpriv : privileged w a = true)
        by (unfold privileged; rewrite Hp; apply orb_true_r).
      pose proof (ending_privileged _ _ Hpriv) as Hne.
      destruct (ending_of w a); try (now destruct Hne);
        unfold ending_run, validated, in_temp, start_events, testing_events;
        rewrite ?Hp; destruct (testing a); cbn; absent.
Qed.

Lemma privilege_check_witness :
  main user_world ["-w"; "osint"; "--tcpnmap"] =
    ([EvEngine; EvBindMetadata; EvQueue; EvProducer; EvAddArguments;
      EvCollectorConfig;
      EvStderr "kiscollect must be executed with root privileges. afterwards, it is possible to execute individual commands with lower privileged users like 'nobody'"],
     SysExit 1)
  /\ exit_code user_world ["-w"; "osint"; "--tcpnmap"] = 1
  /\ main (with_euid user_world 0) ["-w"; "osint"; "-S"] =
     main user_world ["-w"; "osint"; "-S"]
  /\ ~ In EvCollectorConfig (trace user_world ["-w"; "osint"; "-S"]).
Proof.
  destruct (privilege_check user_world ["-w"; "osint"; "--tcpnmap"]
              (args_of user_world ["-w"; "osint"; "--tcpnmap"]) eq_refl)
    as [H1 _].
  destruct (privilege_check user_world ["-w"; "osint"; "-S"]
              (args_of user_world ["-w"; "osint"; "-S"]) eq_refl)
    as [_ H2].
  destruct (H1 ltac:(discriminate) eq_refl) as [Hm Hc].
  destruct (H2 eq_refl) as [Hu Hn].
  split; [exact Hm|]. split; [exact Hc|]. split; [apply Hu | exact Hn].
Defined.

(** C9.  [--list] is looked at after the privilege check: a user other than
    root who asks for the list without [--print-commands] is told on
    stderr that the program must be executed with root privileges and gets
    status 1, and the workspaces are not printed; when the listing runs,
    the workspaces are printed, nothing else is done and the script leaves
    with status 1. *)
Theorem list_after_privilege_check (w : World) (argv : list string)
  (a : Namespace) :
  parse_args w argv = ret a ->
  list_ a = true ->
  (w_euid w <> 0 -> print_commands a = false ->
   main w argv =
     ([EvEngine; EvBindMetadata; EvQueue; EvProducer; EvAddArguments;
       EvCollectorConfig;
       EvStderr (w_prog w ++
              " must be executed with root privileges. afterwards, it is possible to execute individual commands with lower privileged users like 'nobody'")%string],
      SysExit 1)
   /\ ~ In EvPrintWorkspaces (trace w argv)
   /\ exit_code w argv = 1) /\
  (privileged w a = true ->
   main w argv =
     ([EvEngine; EvBindMetadata; EvQueue; EvProducer; EvAddArguments;
       EvPrintWorkspaces],
      SysExit 1)
   /\ exit_code w argv = 1).
Proof.
  intros Hparse Hlist. split.
  - intros Hu Hp.
    assert (Hm : main w argv =
      (startup_events ++ [EvCollectorConfig; EvStderr (privilege_message w)],
       SysExit 1)).
    { rewrite (main_parsed _ _ _ Hparse), ending_not_privileged by assumption.
      reflexivity. }
    unfold trace, exit_code. rewrite Hm.
    split; [reflexivity|]. split; [absent | reflexivity].
  - intros Hpriv.
    assert (Hm : main w argv =
      (startup_events ++ [EvPrintWorkspaces], SysExit 1)).
    { rewrite (main_parsed _ _ _ Hparse), ending_listed by assumption.
      reflexivity. }
    unfold exit_code. rewrite Hm. split; reflexivity.
Qed.

Lemma list_after_privilege_check_witness :
  (main user_world ["-w"; "osint"; "-l"] =
     ([EvEngine; EvBindMetadata; EvQueue; EvProducer; EvAddArguments;
       EvCollectorConfig;
       EvStderr "kiscollect must be executed with root privileges. afterwards, it is possible to execute individual commands with lower privileged users like 'nobody'"],
      SysExit 1)
   /\ ~ In EvPrintWorkspaces (trace user_world ["-w"; "osint"; "-l"])
   /\ exit_code user_world ["-w"; "osint"; "-l"] = 1)
  /\ (main root_world ["-w"; "osint"; "-l"] =
        ([EvEngine; EvBindMetadata; EvQueue; EvProducer; EvAddArguments;
          EvPrintWorkspaces],
         SysExit 1)
      /\ exit_code root_world ["-w"; "osint"; "-l"] = 1)
  /\ (main user_world ["-w"; "osint"; "-l"; "-S"] =
        ([EvEngine; EvBindMetadata; EvQueue; EvProducer; EvAddArguments;
          EvPrintWorkspaces],
         SysExit 1)).
Proof.
  destruct (list_after_privilege_check user_world ["-w"; "osint"; "-l"]
              (args_of user_world ["-w"; "osint"; "-l"]) eq_refl eq_refl)
    as [H1 _].
  destruct (list_after_privilege_check root_world ["-w"; "osint"; "-l"]
              (args_of root_world ["-w"; "osint"; "-l"]) eq_refl eq_refl)
    as [_ H2].
  destruct (list_after_privilege_check user_world ["-w"; "osint"; "-l"; "-S"]
              (args_of user_world ["-w"; "osint"; "-l"; "-S"])
              eq_refl eq_refl)
    as [_ H3].
  split; [apply H1; [discriminate | reflexivity]|].
  split; [apply H2; reflexivity|].
  apply H3. reflexivity.
Defined.

(** ** Print-only mode, the console and the log file *)

(** Finds an event in an explicit list. *)
Ltac present := repeat first [left; reflexivity | right].

(** Proves a decidable property of every event of an explicit list. *)
Ltac each_event :=
  let e := fresh "e" in
  let H := fresh "H" in
  intros e H; cbn in H;
  repeat (destruct H as [<-|H]; [repeat split; reflexivity|]);
  contradiction.

(** Exposes the events of a run that parsed, one case per ending. *)
Ltac by_ending w a :=
  destruct (ending_of w a) eqn:?;
  unfold ending_run, validated, in_temp, start_events, testing_events;
  destruct (testing a); cbn [handled fst snd app].

Lemma log_level_precedence (a : Namespace) :
  log_level a = log_level_by_precedence a.
Proof.
  unfold log_level, log_level_by_precedence.
  destruct (debug a), (analyze a); reflexivity.
Qed.

Lemma main_started (w : World) (argv : list string) (a : Namespace) :
  parse_args w argv = ret a ->
  ending_of w a = Started ->
  main w argv = (startup_events ++ validated w a (start_events w argv a), Ret tt).
Proof.
  intros Hparse He. rewrite (main_parsed _ _ _ Hparse), He. reflexivity.
Qed.

(** C7.  With [--print-commands] no run enters the console or configures the
    log file, and a run that passes all checks starts the producer, joins
    it and ends.  Without [--print-commands] the script itself never starts
    or joins the producer, and a run that passes all checks configures the
    log file and enters the console loop. *)
Theorem print_commands_start_logic (w : World) (argv : list string)
  (a : Namespace) :
  parse_args w argv = ret a ->
  (print_commands a = true ->
   (forall e, In e (trace w argv) ->
              is_console e = false /\ is_logging e = false) /\
   (ending_of w a = Started ->
    main w argv =
      (startup_events ++ validated w a [EvProducerStart; EvProducerJoin],
       Ret tt))) /\
  (print_commands a = false ->
   (~ In EvProducerStart (trace w argv) /\
    ~ In EvProducerJoin (trace w argv)) /\
   (ending_of w a = Started ->
    main w argv =
      (startup_events ++
       validated w a
         [EvLogConfig (w_logfile w) (log_level a);
          EvLogInfo ("$ " ++ String.concat " " (w_prog w :: argv))%string;
          EvConsole (effective_args w a)],
       Ret tt))).
Proof.
  intros Hparse. split; intros Hp.
  - split.
    + unfold trace. rewrite (main_parsed _ _ _ Hparse).
      by_ending w a; rewrite ?Hp; each_event.
    + intros He. rewrite (main_started _ _ _ Hparse He).
      unfold start_events. rewrite Hp. reflexivity.
  - split.
    + unfold trace. rewrite (main_parsed _ _ _ Hparse).
      split; by_ending w a; rewrite ?Hp; absent.
    + intros He. rewrite (main_started _ _ _ Hparse He).
      unfold start_events. rewrite Hp. reflexivity.
Qed.

Lemma print_commands_start_logic_witness :
  main user_world ["-w"; "osint"; "-S"; "--tcpnmap"] =
    (startup_events ++
     validated user_world (args_of user_world ["-w"; "osint"; "-S"; "--tcpnmap"])
       [EvProducerStart; EvProducerJoin],
     Ret tt)
  /\ In (EvConsole (effective_args root_world
                      (args_of root_world ["-w"; "osint"; "--tcpnmap"])))
        (trace root_world ["-w"; "osint"; "--tcpnmap"]).
Proof.
  split.
  - destruct (print_commands_start_logic user_world
                ["-w"; "osint"; "-S"; "--tcpnmap"]
                (args_of user_world ["-w"; "osint"; "-S"; "--tcpnmap"])
                eq_refl) as [H _].
    destruct (H eq_refl) as [_ H']. apply H'. reflexivity.
  - destruct (print_commands_start_logic root_world
                ["-w"; "osint"; "--tcpnmap"]
                (args_of root_world ["-w"; "osint"; "--tcpnmap"])
                eq_refl) as [_ H].
    destruct (H eq_refl) as [_ H']. unfold trace.
    rewrite (H' eq_refl). cbn. present.
Defined.

(** C10.  The level computed by the three assignments is DEBUG when
    [--debug] is set, otherwise WARNING when [--analyze] is set, otherwise
    INFO.  Whenever a run configures the log file, the command line parsed
    without [--print-commands] and the level is this one; and a run
    without [--print-commands] that passes all checks does configure it. *)
Theorem log_level_selection (w : World) (argv : list string) :
  (forall a, log_level a = log_level_by_precedence a) /\
  (forall file level, In (EvLogConfig file level) (trace w argv) ->
     exists a, parse_args w argv = ret a /\ print_commands a = false /\
               file = w_logfile w /\ level = log_level_by_precedence a) /\
  (forall a, parse_args w argv = ret a -> ending_of w a = Started ->
     print_commands a = false ->
     In (EvLogConfig (w_logfile w) (log_level_by_precedence a))
        (trace w argv)).
Proof.
  split; [exact log_level_precedence|]. split.
  - intros file level. unfold trace.
    destruct (parse_args_cases w argv) as [[a Hparse]|[Hparse|[e Hparse]]].
    + rewrite (main_parsed _ _ _ Hparse). intros Hin. exists a.
      split; [exact Hparse|]. revert Hin.
      by_ending w a; try absent;
        destruct (print_commands a); try absent;
        intros H; cbn in H;
        repeat (destruct H as [H|H]; [try discriminate H|]);
        try contradiction;
        injection H as <- <-; rewrite log_level_precedence; auto.
    + rewrite (main_not_parsed _ _ _ _ Hparse). absent.
    + rewrite (main_not_parsed _ _ _ _ Hparse). absent.
  - intros a Hparse He Hp. unfold trace.
    rewrite (main_started _ _ _ Hparse He).
    unfold validated, in_temp, start_events, testing_events. rewrite Hp.
    rewrite <- log_level_precedence.
    destruct (testing a); cbn; present.
Qed.

Lemma log_level_selection_witness :
  In (EvLogConfig (w_logfile root_world) DEBUG)
     (trace root_world ["-w"; "osint"; "-A"; "--debug"]).
Proof.
  destruct (log_level_selection root_world ["-w"; "osint"; "-A"; "--debug"])
    as [_ [_ H]].
  apply (H (args_of root_world ["-w"; "osint"; "-A"; "--debug"]));
    reflexivity.
Defined.

(** ** The handler of the script *)

Lemma handler_prints_and_ends (w : World) (argv : list string)
  (t : list event) (e : exn) :
  main_body w argv = (t, Raise e) ->
  main w argv = (t ++ [EvTraceback e], Ret tt) /\ exit_code w argv = 0.
Proof.
  intros Hb. unfold exit_code. rewrite main_handled, Hb. split; reflexivity.
Qed.

Lemma body_raise_cases (w : World) (argv : list string) (a : Namespace) :
  parse_args w argv = ret a ->
  forall m, diagnostic w (ending_of w a) = Some (EvTraceback m) ->
  main_body w argv = (startup_events ++ validated w a [], Raise m).
Proof.
  intros Hparse m. rewrite (main_body_parsed _ _ _ Hparse).
  destruct (ending_of w a); cbn; intros [= <-]; reflexivity.
Qed.

(** C1.  The run of root on [-w osint -u admin -U users.txt] in the sample
    world: the [ValueError] of the configuration check reaches the handler,
    the traceback is the last thing written, and the script then falls off
    its end, so that the interpreter leaves with status 0. *)
Theorem exception_ends_with_status_zero :
  main_body root_world ["-w"; "osint"; "-u"; "admin"; "-U"; "users.txt"] =
    (startup_events ++
     validated root_world
       (args_of root_world ["-w"; "osint"; "-u"; "admin"; "-U"; "users.txt"]) [],
     Raise (ValueError user_exclusive_message))
  /\ last (trace root_world ["-w"; "osint"; "-u"; "admin"; "-U"; "users.txt"])
          EvEngine
     = EvTraceback (ValueError user_exclusive_message)
  /\ snd (main root_world ["-w"; "osint"; "-u"; "admin"; "-U"; "users.txt"])
     = Ret tt
  /\ exit_code root_world ["-w"; "osint"; "-u"; "admin"; "-U"; "users.txt"]
     = 0.
Proof.
  assert (Hb : main_body root_world
                 ["-w"; "osint"; "-u"; "admin"; "-U"; "users.txt"] =
    (startup_events ++
     validated root_world
       (args_of root_world ["-w"; "osint"; "-u"; "admin"; "-U"; "users.txt"]) [],
     Raise (ValueError user_exclusive_message)))
    by (apply body_raise_cases; reflexivity).
  destruct (handler_prints_and_ends _ _ _ _ Hb) as [Hm Hc].
  unfold trace. rewrite Hm.
  split; [exact Hb|]. split; [reflexivity|]. split; [reflexivity|exact Hc].
Qed.

(** ** Validation of the configuration *)

Lemma enters_temp_dir_ending (w : World) (a : Namespace) :
  enters_temp_dir w a = true ->
  ending_of w a =
  match failing (output_dir a) (w_isdir w) with
  | Some d => OutputDirMissing d
  | None =>
  if negb (mem (workspace a) (w_workspaces w))
  then WorkspaceUnknown (workspace a)
  else if user_conflict a then UserConflict
  else if password_conflict a then PasswordConflict
  else match first_missing_wordlist w a with
  | Some f => WordlistMissing f
  | None =>
  match failing (user_file a) (w_exists w) with
  | Some f => UserFileMissing f
  | None =>
  match failing (password_file a) (w_exists w) with
  | Some f => PasswordFileMissing f
  | None =>
  match failing (combo_file a) (w_exists w) with
  | Some f => ComboFileMissing f
  | None => Started
  end end end end end.
Proof.
  unfold enters_temp_dir. intros [Hp Hl]%andb_prop.
  unfold ending_of. rewrite privileged_condition, Hp.
  apply negb_true_iff in Hl. rewrite Hl. reflexivity.
Qed.

Lemma reaches_validation_ending (w : World) (a : Namespace) :
  reaches_validation w a = true ->
  ending_of w a =
  if user_conflict a then UserConflict
  else if password_conflict a then PasswordConflict
  else match first_missing_wordlist w a with
  | Some f => WordlistMissing f
  | None =>
  match failing (user_file a) (w_exists w) with
  | Some f => UserFileMissing f
  | None =>
  match failing (password_file a) (w_exists w) with
  | Some f => PasswordFileMissing f
  | None =>
  match failing (combo_file a) (w_exists w) with
  | Some f => ComboFileMissing f
  | None => Started
  end end end end.
Proof.
  unfold reaches_validation, reaches_lookup, output_dir_usable.
  intros [[Ht Ho]%andb_prop Hw]%andb_prop.
  rewrite (enters_temp_dir_ending _ _ Ht).
  destruct (failing (output_dir a) (w_isdir w)); [discriminate|].
  rewrite Hw. reflexivity.
Qed.

(** No run that ends before the start has an event of the collection. *)
Lemma collection_only_when_started (w : World) (argv : list string)
  (a : Namespace) :
  parse_args w argv = ret a ->
  ending_of w a <> Started ->
  forall e, In e (trace w argv) -> is_collection e = false.
Proof.
  intros Hparse Hne. unfold trace. rewrite (main_parsed _ _ _ Hparse).
  by_ending w a; try each_event; now destruct Hne.
Qed.

Lemma conflict_never_started (w : World) (a : Namespace) :
  user_conflict a = true \/ password_conflict a = true ->
  ending_of w a <> Started.
Proof.
  unfold user_conflict, password_conflict, ending_of. intros Hc.
  repeat match goal with
         | |- (if ?c then _ else _) <> _ =>
             destruct c eqn:?; [discriminate|]
         | |- match ?x with Some _ => _ | None => _ end <> _ =>
             destruct x; [discriminate|]
         end.
  destruct Hc; congruence.
Qed.

(** C3, as amended.  When [--user] and [--user-file], or [--password] and
    [--password-file], are both given with non-empty values, no run gets to
    the collection; and a run that gets as far as the check (privilege
    check passed, no [--list], usable output directory, known workspace)
    raises the [ValueError] of the first conflicting pair, after
    [producer.init] and the workspace lookup and before anything else. *)
Theorem credential_options_exclusive (w : World) (argv : list string)
  (a : Namespace) :
  parse_args w argv = ret a ->
  user_conflict a = true \/ password_conflict a = true ->
  (forall e, In e (trace w argv) -> is_collection e = false) /\
  (reaches_validation w a = true ->
   main_body w argv =
     (startup_events ++ validated w a [],
      Raise (ValueError (if user_conflict a then user_exclusive_message
                         else password_exclusive_message)))).
Proof.
  intros Hparse Hc. split.
  - apply (collection_only_when_started _ _ _ Hparse).
    apply conflict_never_started, Hc.
  - intros Hr. apply (body_raise_cases _ _ _ Hparse).
    rewrite (reaches_validation_ending _ _ Hr).
    destruct (user_conflict a); [reflexivity|].
    destruct Hc as [Hc|Hc]; [discriminate|]. rewrite Hc. reflexivity.
Qed.

Lemma credential_options_exclusive_witness :
  main_body root_world
    ["-w"; "osint"; "-p"; "secret"; "-P"; "passwords.txt"] =
    (startup_events ++
     validated root_world
       (args_of root_world
          ["-w"; "osint"; "-p"; "secret"; "-P"; "passwords.txt"]) [],
     Raise (ValueError password_exclusive_message)).
Proof.
  destruct (credential_options_exclusive root_world
              ["-w"; "osint"; "-p"; "secret"; "-P"; "passwords.txt"]
              (args_of root_world
                 ["-w"; "osint"; "-p"; "secret"; "-P"; "passwords.txt"])
              eq_refl (or_intror eq_refl)) as [_ H].
  apply H. reflexivity.
Defined.

(** C3, the claim as stated fails: root runs [-w osint -u "" -U users.txt]
    in the sample world.  Both options are on the command line, the empty
    user name is false for Python, no exception is raised and the run
    enters the console. *)
Lemma credential_options_counterexample :
  let argv := ["-w"; "osint"; "-u"; ""; "-U"; "users.txt"] in
  let a := args_of root_world argv in
  parse_args root_world argv = ret a
  /\ user a = Some "" /\ user_file a = Some "users.txt"
  /\ reaches_validation root_world a = true
  /\ (forall e, In e (trace root_world argv) -> is_traceback e = false)
  /\ In (EvConsole (effective_args root_world a)) (trace root_world argv)
  /\ snd (main_body root_world argv) = Ret tt.
Proof.
  cbv zeta. repeat (split; [reflexivity|]).
  split; [|split; [|reflexivity]].
  - vm_compute. each_event.
  - vm_compute. present.
Qed.

Lemma reaches_file_checks_ending (w : World) (a : Namespace) :
  reaches_file_checks w a = true ->
  ending_of w a =
  match first_missing_wordlist w a with
  | Some f => WordlistMissing f
  | None =>
  match failing (user_file a) (w_exists w) with
  | Some f => UserFileMissing f
  | None =>
  match failing (password_file a) (w_exists w) with
  | Some f => PasswordFileMissing f
  | None =>
  match failing (combo_file a) (w_exists w) with
  | Some f => ComboFileMissing f
  | None => Started
  end end end end.
Proof.
  unfold reaches_file_checks.
  intros [[Hr Hu%negb_true_iff]%andb_prop Hp%negb_true_iff]%andb_prop.
  rewrite (reaches_validation_ending _ _ Hr), Hu, Hp. reflexivity.
Qed.

Lemma failing_none (o : option string) (p : string -> bool) (s : string) :
  failing o p = None -> o = Some s -> s <> "" -> p s = true.
Proof.
  intros Hf -> Hs. unfold failing in Hf.
  apply String.eqb_neq in Hs. rewrite Hs in Hf. cbn in Hf.
  destruct (p s); [reflexivity|discriminate].
Qed.

Lemma first_missing_wordlist_some (w : World) (a : Namespace) (f : string) :
  first_missing_wordlist w a = Some f ->
  referenced a f /\ w_exists w f = false.
Proof.
  unfold first_missing_wordlist, referenced.
  destruct (wordlist_files a) as [l|]; [|discriminate].
  intros [Hin Hx%negb_true_iff]%find_some. split; [|exact Hx].
  left. exists l. auto.
Qed.

Lemma first_missing_wordlist_none (w : World) (a : Namespace) (l : list string)
  (f : string) :
  first_missing_wordlist w a = None ->
  wordlist_files a = Some l -> In f l -> w_exists w f = true.
Proof.
  unfold first_missing_wordlist. intros Hf Hl Hin. rewrite Hl in Hf.
  apply (find_none _ _ Hf) in Hin. now apply negb_false_iff in Hin.
Qed.

Lemma find_first {A} (f : A -> bool) (l1 l2 : list A) (x : A) :
  (forall y, In y l1 -> f y = false) -> f x = true ->
  find f (l1 ++ x :: l2) = Some x.
Proof.
  intros H1 Hx. induction l1 as [|y l1 IH]; cbn.
  - now rewrite Hx.
  - rewrite (H1 y (or_introl eq_refl)). apply IH.
    intros z Hz. apply H1. now right.
Qed.

Lemma first_missing_wordlist_first (w : World) (a : Namespace)
  (l1 l2 : list string) (f : string) :
  wordlist_files a = Some (l1 ++ f :: l2) ->
  (forall g, In g l1 -> w_exists w g = true) ->
  w_exists w f = false ->
  first_missing_wordlist w a = Some f.
Proof.
  intros Hl H1 Hf. unfold first_missing_wordlist. rewrite Hl.
  apply find_first.
  - intros g Hg. now rewrite (H1 g Hg).
  - now rewrite Hf.
Qed.

Lemma first_missing_wordlist_all (w : World) (a : Namespace) :
  (forall l g, wordlist_files a = Some l -> In g l -> w_exists w g = true) ->
  first_missing_wordlist w a = None.
Proof.
  intros Hall. unfold first_missing_wordlist.
  destruct (wordlist_files a) as [l|] eqn:Hl; [|reflexivity].
  destruct (find _ l) as [g|] eqn:Hg; [|reflexivity].
  apply find_some in Hg as [Hin Hx].
  rewrite (Hall l g eq_refl Hin) in Hx. discriminate.
Qed.

Lemma failing_named (o : option string) (p : string -> bool) (f : string) :
  o = Some f -> f <> "" -> p f = false -> failing o p = Some f.
Proof.
  intros -> Hne Hp. unfold failing.
  apply String.eqb_neq in Hne. now rewrite Hne, Hp.
Qed.

Lemma failing_passes (o : option string) (p : string -> bool) :
  (forall f, o = Some f -> f <> "" -> p f = true) -> failing o p = None.
Proof.
  intros Hall. destruct (failing o p) as [f|] eqn:Hf; [|reflexivity].
  apply failing_some in Hf as (Ho & Hne & Hp).
  rewrite (Hall f Ho Hne) in Hp. discriminate.
Qed.

(** C4, as amended.  For a run that gets as far as the file checks
    (privilege check passed, no [--list], usable output directory, known
    workspace, no conflicting credential options) the files are looked at
    in the order word lists, user file, password file, combo file, and the
    first one that does not exist is the one that the [FileNotFoundError]
    names: the first missing word list of the command line ("wordlist 'f'
    not found."); when all word lists exist, the file of a non-empty
    [--user-file] ("user file 'f' not found."); when that one passes too,
    the file of a non-empty [--password-file] ("password file 'f' not
    found."); and then that of a non-empty [--combo-file] ("combo file 'f'
    not found.").  The exception is raised right after the workspace
    lookup; a run with a missing file has no event of the collection; and
    if all the files exist the run passes all checks and starts. *)
Theorem referenced_files_must_exist (w : World) (argv : list string)
  (a : Namespace) :
  parse_args w argv = ret a ->
  reaches_file_checks w a = true ->
  let wordlists_exist :=
    forall l g, wordlist_files a = Some l -> In g l -> w_exists w g = true in
  let found (o : option string) :=
    forall g, o = Some g -> g <> "" -> w_exists w g = true in
  let raises (msg : string) :=
    main_body w argv =
      (startup_events ++ validated w a [], Raise (FileNotFoundError msg)) in
  (forall l1 f l2,
     wordlist_files a = Some (l1 ++ f :: l2) ->
     (forall g, In g l1 -> w_exists w g = true) ->
     w_exists w f = false ->
     raises ("wordlist '" ++ f ++ "' not found.")%string) /\
  (forall f,
     wordlists_exist ->
     user_file a = Some f -> f <> "" -> w_exists w f = false ->
     raises ("user file '" ++ f ++ "' not found.")%string) /\
  (forall f,
     wordlists_exist -> found (user_file a) ->
     password_file a = Some f -> f <> "" -> w_exists w f = false ->
     raises ("password file '" ++ f ++ "' not found.")%string) /\
  (forall f,
     wordlists_exist -> found (user_file a) -> found (password_file a) ->
     combo_file a = Some f -> f <> "" -> w_exists w f = false ->
     raises ("combo file '" ++ f ++ "' not found.")%string) /\
  ((exists f, referenced a f /\ w_exists w f = false) ->
   (exists f msg,
      referenced a f /\ w_exists w f = false /\ names_file msg f /\
      raises msg)
   /\ (forall e, In e (trace w argv) -> is_collection e = false)) /\
  ((forall f, referenced a f -> w_exists w f = true) ->
   ending_of w a = Started /\
   main w argv =
     (startup_events ++ validated w a (start_events w argv a), Ret tt)).
Proof.
  intros Hparse Hr wordlists_exist found raises.
  subst wordlists_exist found raises. cbv beta.
  pose proof (reaches_file_checks_ending _ _ Hr) as He.
  split; [|split; [|split; [|split]]].
  - intros l1 f l2 Hl H1 Hf.
    apply (body_raise_cases _ _ _ Hparse). rewrite He.
    rewrite (first_missing_wordlist_first _ _ _ _ _ Hl H1 Hf). reflexivity.
  - intros f Hw Hu Hne Hf.
    apply (body_raise_cases _ _ _ Hparse). rewrite He.
    rewrite (first_missing_wordlist_all _ _ Hw).
    rewrite (failing_named _ _ _ Hu Hne Hf). reflexivity.
  - intros f Hw Hu Hp Hne Hf.
    apply (body_raise_cases _ _ _ Hparse). rewrite He.
    rewrite (first_missing_wordlist_all _ _ Hw).
    rewrite (failing_passes _ _ Hu).
    rewrite (failing_named _ _ _ Hp Hne Hf). reflexivity.
  - intros f Hw Hu Hp Hc Hne Hf.
    apply (body_raise_cases _ _ _ Hparse). rewrite He.
    rewrite (first_missing_wordlist_all _ _ Hw).
    rewrite (failing_passes _ _ Hu), (failing_passes _ _ Hp).
    rewrite (failing_named _ _ _ Hc Hne Hf). reflexivity.
  - destruct (first_missing_wordlist w a) as [f|] eqn:Hw.
    { apply first_missing_wordlist_some in Hw as [Href Hx]. split.
      - intros _. split.
        + exists f, (wordlist_message f). repeat split; auto.
          * left. reflexivity.
          * apply (body_raise_cases _ _ _ Hparse). rewrite He. reflexivity.
        + apply (collection_only_when_started _ _ _ Hparse). congruence.
      - intros Hall. rewrite (Hall _ Href) in Hx. discriminate. }
    destruct (failing (user_file a) (w_exists w)) as [f|] eqn:Hu.
    { apply failing_some in Hu as (Hf & Hne & Hx).
      assert (Href : referenced a f) by (right; left; auto). split.
      - intros _. split.
        + exists f, (user_file_message f). repeat split; auto.
          * right. left. reflexivity.
          * apply (body_raise_cases _ _ _ Hparse). rewrite He. reflexivity.
        + apply (collection_only_when_started _ _ _ Hparse). congruence.
      - intros Hall. rewrite (Hall _ Href) in Hx. discriminate. }
    destruct (failing (password_file a) (w_exists w)) as [f|] eqn:Hpw.
    { apply failing_some in Hpw as (Hf & Hne & Hx).
      assert (Href : referenced a f) by (right; right; left; auto). split.
      - intros _. split.
        + exists f, (password_file_message f). repeat split; auto.
          * right. right. left. reflexivity.
          * apply (body_raise_cases _ _ _ Hparse). rewrite He. reflexivity.
        + apply (collection_only_when_started _ _ _ Hparse). congruence.
      - intros Hall. rewrite (Hall _ Href) in Hx. discriminate. }
    destruct (failing (combo_file a) (w_exists w)) as [f|] eqn:Hc.
    { apply failing_some in Hc as (Hf & Hne & Hx).
      assert (Href : referenced a f) by (right; right; right; auto). split.
      - intros _. split.
        + exists f, (combo_file_message f). repeat split; auto.
          * right. right. right. reflexivity.
          * apply (body_raise_cases _ _ _ Hparse). rewrite He. reflexivity.
        + apply (collection_only_when_started _ _ _ Hparse). congruence.
      - intros Hall. rewrite (Hall _ Href) in Hx. discriminate. }
    split.
    + intros (f & Href & Hx). exfalso.
      destruct Href as [(l & Hl & Hin)|[[Hf Hne]|[[Hf Hne]|[Hf Hne]]]].
      * rewrite (first_missing_wordlist_none _ _ _ _ Hw Hl Hin) in Hx.
        discriminate.
      * rewrite (failing_none _ _ _ Hu Hf Hne) in Hx. discriminate.
      * rewrite (failing_none _ _ _ Hpw Hf Hne) in Hx. discriminate.
      * rewrite (failing_none _ _ _ Hc Hf Hne) in Hx. discriminate.
    + intros _. split; [exact He|]. apply (main_started _ _ _ Hparse He).
Qed.

Lemma referenced_files_must_exist_witness :
  main_body root_world
    ["-w"; "osint"; "-L"; "words.txt"; "nothere.txt"; "-U"; "nousers.txt"] =
    ([EvEngine; EvBindMetadata; EvQueue; EvProducer; EvAddArguments;
      EvTempCreate "/tmp/tmpkis";
      EvProducerInit
        (effective_args root_world
           (args_of root_world
              ["-w"; "osint"; "-L"; "words.txt"; "nothere.txt";
               "-U"; "nousers.txt"]));
      EvSessionOpen; EvGetWorkspace "osint"; EvSessionClose;
      EvTempRemove "/tmp/tmpkis"],
     Raise (FileNotFoundError "wordlist 'nothere.txt' not found."))
  /\ snd (main_body root_world
            ["-w"; "osint"; "-L"; "words.txt"; "-U"; "nousers.txt";
             "-C"; "nocombo.txt"]) =
     Raise (FileNotFoundError "user file 'nousers.txt' not found.")
  /\ snd (main_body root_world
            ["-w"; "osint"; "-U"; "users.txt"; "-P"; "nopasswords.txt"]) =
     Raise (FileNotFoundError "password file 'nopasswords.txt' not found.")
  /\ snd (main_body root_world
            ["-w"; "osint"; "-P"; "passwords.txt"; "-C"; "nocombo.txt"]) =
     Raise (FileNotFoundError "combo file 'nocombo.txt' not found.")
  /\ ending_of root_world
       (args_of root_world ["-w"; "osint"; "-U"; "users.txt"]) = Started.
Proof.
  split; [|split; [|split; [|split]]].
  - destruct (referenced_files_must_exist root_world
                ["-w"; "osint"; "-L"; "words.txt"; "nothere.txt";
                 "-U"; "nousers.txt"]
                (args_of root_world
                   ["-w"; "osint"; "-L"; "words.txt"; "nothere.txt";
                    "-U"; "nousers.txt"])
                eq_refl eq_refl) as [H _].
    apply (H ["words.txt"] "nothere.txt" []); try reflexivity.
    intros g [<-|[]]. reflexivity.
  - destruct (referenced_files_must_exist root_world
                ["-w"; "osint"; "-L"; "words.txt"; "-U"; "nousers.txt";
                 "-C"; "nocombo.txt"]
                (args_of root_world
                   ["-w"; "osint"; "-L"; "words.txt"; "-U"; "nousers.txt";
                    "-C"; "nocombo.txt"])
                eq_refl eq_refl) as (_ & H & _).
    rewrite (H "nousers.txt"); try reflexivity; try discriminate.
    intros l g [= <-] [<-|[]]. reflexivity.
  - destruct (referenced_files_must_exist root_world
                ["-w"; "osint"; "-U"; "users.txt"; "-P"; "nopasswords.txt"]
                (args_of root_world
                   ["-w"; "osint"; "-U"; "users.txt";
                    "-P"; "nopasswords.txt"])
                eq_refl eq_refl) as (_ & _ & H & _).
    rewrite (H "nopasswords.txt"); try reflexivity; try discriminate.
    intros g [= <-] _. reflexivity.
  - destruct (referenced_files_must_exist root_world
                ["-w"; "osint"; "-P"; "passwords.txt"; "-C"; "nocombo.txt"]
                (args_of root_world
                   ["-w"; "osint"; "-P"; "passwords.txt";
                    "-C"; "nocombo.txt"])
                eq_refl eq_refl) as (_ & _ & _ & H & _).
    rewrite (H "nocombo.txt"); try reflexivity; try discriminate.
    intros g [= <-] _. reflexivity.
  - destruct (referenced_files_must_exist root_world
                ["-w"; "osint"; "-U"; "users.txt"]
                (args_of root_world ["-w"; "osint"; "-U"; "users.txt"])
                eq_refl eq_refl) as (_ & _ & _ & _ & _ & H).
    apply H. intros f [(l & Hl & _)|[[Hf _]|[[Hf _]|[Hf _]]]];
      try discriminate.
    injection Hf as <-. reflexivity.
Defined.

(** C4, the claim as stated fails: root runs [-w osint -U ""] in the sample
    world.  The user file that the command line names does not exist, the
    empty name is false for Python, the check is skipped and the run enters
    the console.  And on [-w osint -u admin -U nothere.txt] the missing
    user file is never looked at: the exception raised is the [ValueError]
    of the check that comes first. *)
Lemma referenced_files_counterexample :
  (let argv := ["-w"; "osint"; "-U"; ""] in
   let a := args_of root_world argv in
   parse_args root_world argv = ret a
   /\ user_file a = Some ""
   /\ w_exists root_world "" = false
   /\ reaches_file_checks root_world a = true
   /\ (forall e, In e (trace root_world argv) -> is_traceback e = false)
   /\ In (EvConsole (effective_args root_world a)) (trace root_world argv)
   /\ snd (main_body root_world argv) = Ret tt)
  /\
  (let argv := ["-w"; "osint"; "-u"; "admin"; "-U"; "nothere.txt"] in
   let a := args_of root_world argv in
   parse_args root_world argv = ret a
   /\ user_file a = Some "nothere.txt"
   /\ w_exists root_world "nothere.txt" = false
   /\ snd (main_body root_world argv)
      = Raise (ValueError user_exclusive_message)).
Proof.
  cbv zeta. split.
  - repeat (split; [reflexivity|]).
    split; [|split; [|reflexivity]].
    + vm_compute. each_event.
    + vm_compute. present.
  - repeat split.
Qed.

(** ** The working directory *)

Lemma body_in_temp (w : World) (argv : list string) (a : Namespace) :
  parse_args w argv = ret a ->
  enters_temp_dir w a = true ->
  exists t r, main_body w argv = (startup_events ++ in_temp w t, r).
Proof.
  intros Hparse Ht. rewrite (main_body_parsed _ _ _ Hparse).
  pose proof (ending_privileged w a) as Hnp.
  pose proof (ending_listed w a) as Hnl.
  unfold enters_temp_dir in Ht. apply andb_prop in Ht as [Hp Hl].
  apply negb_true_iff in Hl.
  destruct (ending_of w a) eqn:He; cbn;
    try (eexists; eexists; reflexivity).
  - now destruct (Hnp Hp).
  - exfalso. revert He. unfold ending_of.
    rewrite privileged_condition, Hp, Hl. cbn [negb].
    repeat match goal with
           | |- (if ?c then _ else _) = _ -> _ =>
               destruct c; [discriminate|]
           | |- match ?x with Some _ => _ | None => _ end = _ -> _ =>
               destruct x; [discriminate|]
           end.
    discriminate.
Qed.

Lemma init_in_trace (w : World) (argv : list string) (a : Namespace) :
  parse_args w argv = ret a ->
  reaches_lookup w a = true ->
  In (EvProducerInit (effective_args w a)) (trace w argv).
Proof.
  intros Hparse Hr. unfold trace. rewrite (main_parsed _ _ _ Hparse).
  unfold reaches_lookup, output_dir_usable in Hr.
  apply andb_prop in Hr as [Ht Ho].
  rewrite (enters_temp_dir_ending _ _ Ht).
  destruct (failing (output_dir a) (w_isdir w)); [discriminate|].
  repeat match goal with
         | |- context [if ?c then _ else _] => destruct c
         | |- context [match ?x with Some _ => _ | None => _ end] =>
             destruct x
         end;
    unfold ending_run, validated, in_temp, testing_events;
    destruct (testing a); cbn; present.
Qed.

(** C8, as amended.  For a run that enters the block of the temporary
    directory (privilege check passed, no [--list]): the directory is
    created first and its removal is the last event of the body, whichever
    way the body ends.  A non-empty [-o] that names an existing directory
    is what [producer.init] receives as [output_dir]; a non-empty [-o] that
    names no directory makes the script print the message with the name
    and leave with status 1, [producer.init] not being called; an absent or
    empty [-o] makes [producer.init] receive the temporary directory. *)
Theorem working_directory (w : World) (argv : list string) (a : Namespace) :
  parse_args w argv = ret a ->
  enters_temp_dir w a = true ->
  (exists t r, main_body w argv = (startup_events ++ in_temp w t, r)) /\
  (forall d, output_dir a = Some d -> d <> "" -> w_isdir w d = true ->
     In (EvProducerInit (set_output_dir a (Some d))) (trace w argv)) /\
  (forall d, output_dir a = Some d -> d <> "" -> w_isdir w d = false ->
     main w argv =
       (startup_events ++
        in_temp w (testing_events a ++ [EvStderr (output_dir_message d)]),
        SysExit 1)
     /\ exit_code w argv = 1) /\
  (truthy (output_dir a) = false ->
     In (EvProducerInit (set_output_dir a (Some (w_tempdir w))))
        (trace w argv)).
Proof.
  intros Hparse Ht. split; [exact (body_in_temp _ _ _ Hparse Ht)|].
  split; [|split].
  - intros d Ho Hne Hd.
    assert (Hw : effective_args w a = set_output_dir a (Some d)).
    { unfold effective_args, working_dir. rewrite Ho.
      apply String.eqb_neq in Hne. rewrite Hne. reflexivity. }
    rewrite <- Hw. apply (init_in_trace _ _ _ Hparse).
    unfold reaches_lookup, output_dir_usable, failing.
    rewrite Ht, Ho, Hd. apply String.eqb_neq in Hne. rewrite Hne.
    reflexivity.
  - intros d Ho Hne Hd.
    assert (Hm : main w argv =
      (startup_events ++
       in_temp w (testing_events a ++ [EvStderr (output_dir_message d)]),
       SysExit 1)).
    { rewrite (main_parsed _ _ _ Hparse), (enters_temp_dir_ending _ _ Ht).
      unfold failing. rewrite Ho, Hd.
      apply String.eqb_neq in Hne. rewrite Hne. reflexivity. }
    unfold exit_code. rewrite Hm. split; reflexivity.
  - intros Ho.
    assert (Hw : effective_args w a = set_output_dir a (Some (w_tempdir w))).
    { unfold effective_args, working_dir. unfold truthy in Ho.
      destruct (output_dir a) as [d|]; [|reflexivity].
      apply negb_false_iff in Ho. rewrite Ho. reflexivity. }
    rewrite <- Hw. apply (init_in_trace _ _ _ Hparse).
    unfold reaches_lookup, output_dir_usable, failing.
    rewrite Ht. unfold truthy in Ho.
    destruct (output_dir a) as [d|]; [|reflexivity].
    rewrite Ho. reflexivity.
Qed.

Lemma working_directory_witness :
  In (EvProducerInit
        (set_output_dir (args_of root_world ["-w"; "osint"; "-o"; "/tmp/out"])
           (Some "/tmp/out")))
     (trace root_world ["-w"; "osint"; "-o"; "/tmp/out"])
  /\ exit_code root_world ["-w"; "osint"; "-o"; "/nowhere"] = 1.
Proof.
  split.
  - destruct (working_directory root_world ["-w"; "osint"; "-o"; "/tmp/out"]
                (args_of root_world ["-w"; "osint"; "-o"; "/tmp/out"])
                eq_refl eq_refl) as (_ & H & _).
    apply H; [reflexivity | discriminate | reflexivity].
  - destruct (working_directory root_world ["-w"; "osint"; "-o"; "/nowhere"]
                (args_of root_world ["-w"; "osint"; "-o"; "/nowhere"])
                eq_refl eq_refl) as (_ & _ & H & _).
    apply (H "/nowhere"); [reflexivity | discriminate | reflexivity].
Defined.

(** C8, the claim as stated fails: root runs [-w osint -o ""] in the sample
    world.  The empty name is no directory, yet no message is printed,
    [producer.init] is called with the temporary directory and the run
    enters the console.  And a listing run, [-w osint -l], ends before any
    temporary directory is created. *)
Lemma working_directory_counterexample :
  (let argv := ["-w"; "osint"; "-o"; ""] in
   let a := args_of root_world argv in
   parse_args root_world argv = ret a
   /\ output_dir a = Some ""
   /\ w_isdir root_world "" = false
   /\ In (EvProducerInit (set_output_dir a (Some (w_tempdir root_world))))
         (trace root_world argv)
   /\ In (EvConsole (effective_args root_world a)) (trace root_world argv)
   /\ exit_code root_world argv = 0)
  /\
  (let argv := ["-w"; "osint"; "-l"] in
   trace root_world argv = startup_events ++ [EvPrintWorkspaces]
   /\ ~ In (EvTempCreate (w_tempdir root_world)) (trace root_world argv)).
Proof.
  cbv zeta. split.
  - repeat (split; [reflexivity|]).
    split; [|split; [|reflexivity]]; vm_compute; present.
  - split; [reflexivity|]. vm_compute. absent.
Qed.

(** ** Diagnostics of configuration errors *)















(** ** The choices of [--restart] *)



Section RestartRejected.

Variable specs : list option_spec.
Variable tail : list string.

Hypothesis restart_declared :
  find_option specs "--restart" = Some restart_option.

(** [--restart] is followed by no value, or by a value that is not among
    the choices. *)
Hypothesis bad_values :
  take_args specs tail = [] \/
  exists v, In v (take_args specs tail) /\ mem v restart_choices = false.




End RestartRejected.
































(** * Further properties of the script *)

(** ** Exit status *)

Lemma early_ending (w : World) (a : Namespace) :
  reaches_validation w a = false ->
  ending_of w a = NotPrivileged \/ ending_of w a = ListedWorkspaces \/
  (exists d, ending_of w a = OutputDirMissing d) \/
  ending_of w a = WorkspaceUnknown (workspace a).
Proof.
  unfold reaches_validation, reaches_lookup, enters_temp_dir,
    output_dir_usable, ending_of.
  rewrite privileged_condition.
  destruct (privileged w a); cbn [negb andb]; [|auto].
  destruct (list_ a); cbn [negb andb]; [auto|].
  destruct (failing (output_dir a) (w_isdir w)) as [d|]; [eauto|].
  cbn [andb]. intros ->. auto.
Qed.

Lemma late_ending (w : World) (argv : list string) (a : Namespace) :
  reaches_validation w a = true ->
  exit_status (snd (handled
      (let (t, r) := ending_run w argv a (ending_of w a) in
       (startup_events ++ t, r)))) = 0.
Proof.
  intros Hr. rewrite (reaches_validation_ending _ _ Hr).
  repeat match goal with
         | |- context [if ?c then _ else _] => destruct c
         | |- context [match ?x with Some _ => _ | None => _ end] =>
             destruct x
         end; reflexivity.
Qed.

(** The exit status of every run is 0, 1 or 2.  It is 2 exactly when
    [argparse] refuses the command line.  For a command line that parses
    it is 1 exactly when the run is stopped before the checks of the
    credential options (privilege check, [--list], output directory,
    workspace) and 0 in every other case, also when the run ends in an
    exception. *)
Theorem exit_status_classification (w : World) (argv : list string) :
  (exit_code w argv = 0 \/ exit_code w argv = 1 \/ exit_code w argv = 2) /\
  (exit_code w argv = 2 <->
   exists e, parse_args w argv = ([EvArgparseError e], SysExit 2)) /\
  (forall a, parse_args w argv = ret a ->
     (exit_code w argv = 1 <-> reaches_validation w a = false) /\
     (exit_code w argv = 0 <-> reaches_validation w a = true)).
Proof.
  assert (Hparsed : forall a, parse_args w argv = ret a ->
     (reaches_validation w a = false -> exit_code w argv = 1) /\
     (reaches_validation w a = true -> exit_code w argv = 0)).
  { intros a Hparse. unfold exit_code. rewrite (main_parsed _ _ _ Hparse).
    split; intros Hr.
    - destruct (early_ending _ _ Hr) as [H|[H|[[d H]|H]]]; rewrite H;
        reflexivity.
    - apply (late_ending _ _ _ Hr). }
  destruct (parse_args_cases w argv) as [[a Hparse]|[Hparse|[e Hparse]]].
  - destruct (Hparsed a Hparse) as [H1 H0].
    destruct (reaches_validation w a) eqn:Hr.
    + specialize (H0 eq_refl). split; [auto|]. split.
      * split; [lia|]. intros [e He]. rewrite Hparse in He. discriminate.
      * intros a' Ha'. rewrite Hparse in Ha'. injection Ha' as <-.
        rewrite Hr. split; split; intros; try lia; try discriminate;
          assumption.
    + specialize (H1 eq_refl). split; [auto|]. split.
      * split; [lia|]. intros [e He]. rewrite Hparse in He. discriminate.
      * intros a' Ha'. rewrite Hparse in Ha'. injection Ha' as <-.
        rewrite Hr. split; split; intros; try lia; try discriminate;
          assumption.
  - assert (Hc : exit_code w argv = 0)
      by (unfold exit_code; rewrite (main_not_parsed _ _ _ _ Hparse);
          reflexivity).
    split; [auto|]. split.
    + split; [lia|]. intros [e He]. rewrite Hparse in He. discriminate.
    + intros a Ha. rewrite Hparse in Ha. discriminate.
  - assert (Hc : exit_code w argv = 2)
      by (unfold exit_code; rewrite (main_not_parsed _ _ _ _ Hparse);
          reflexivity).
    split; [auto|]. split.
    + split; [eauto|auto].
    + intros a Ha. rewrite Hparse in Ha. discriminate.
Qed.

Lemma exit_status_classification_witness :
  exit_code root_world ["-w"; "nope"] = 1 /\
  exit_code root_world ["-w"; "osint"; "-C"; "nothere.txt"] = 0.
Proof.
  split.
  - destruct (exit_status_classification root_world ["-w"; "nope"])
      as (_ & _ & H).
    apply (H (args_of root_world ["-w"; "nope"]) eq_refl). reflexivity.
  - destruct (exit_status_classification root_world
                ["-w"; "osint"; "-C"; "nothere.txt"]) as (_ & _ & H).
    apply (H (args_of root_world ["-w"; "osint"; "-C"; "nothere.txt"])
             eq_refl).
    reflexivity.
Defined.

(** ** Exceptions and the two [with] blocks *)

(** A traceback is written by the handler of the script and by nothing
    else: in a run that has one, the body of the script ended in that
    exception, the traceback is the last event of the run, there is no
    other one, and the exit status is 0. *)
Theorem traceback_is_last (w : World) (argv : list string) (e : exn) :
  In (EvTraceback e) (trace w argv) ->
  exists t,
    trace w argv = t ++ [EvTraceback e] /\
    main_body w argv = (t, Raise e) /\
    (forall x, In x t -> is_traceback x = false) /\
    exit_code w argv = 0.
Proof.
  unfold trace, exit_code.
  destruct (parse_args_cases w argv) as [[a Hparse]|[Hparse|[pe Hparse]]].
  - rewrite (main_parsed _ _ _ Hparse), (main_body_parsed _ _ _ Hparse).
    by_ending w a; try absent;
      try (destruct (print_commands a); absent);
      intros H; cbn in H;
      repeat (destruct H as [H|H]; [try discriminate H|]);
      try contradiction;
      injection H as <-;
      (eexists; split; [reflexivity|]; split; [reflexivity|];
       split; [each_event|reflexivity]).
  - rewrite (main_not_parsed _ _ _ _ Hparse). absent.
  - rewrite (main_not_parsed _ _ _ _ Hparse). absent.
Qed.

Lemma traceback_is_last_witness :
  exists t,
    trace root_world ["-w"; "osint"; "-P"; "nothere.txt"] =
      t ++ [EvTraceback
              (FileNotFoundError "password file 'nothere.txt' not found.")] /\
    main_body root_world ["-w"; "osint"; "-P"; "nothere.txt"] =
      (t, Raise (FileNotFoundError "password file 'nothere.txt' not found."))
    /\ (forall x, In x t -> is_traceback x = false)
    /\ exit_code root_world ["-w"; "osint"; "-P"; "nothere.txt"] = 0.
Proof.
  apply (traceback_is_last root_world ["-w"; "osint"; "-P"; "nothere.txt"]).
  vm_compute. present.
Defined.

Lemma brackets_app (t1 t2 : list event) :
  brackets (t1 ++ t2) = brackets t1 ++ brackets t2.
Proof. apply flat_map_app. Qed.

(** The two [with] blocks are always left: in every run the temporary
    directory is either never created or created once and removed, and the
    database session is either never opened or opened and closed inside the
    block of the temporary directory.  For a command line that parses, the
    temporary directory is used exactly when the run passes the privilege
    check and is no listing, and the session exactly when, moreover, the
    output directory is usable. *)
Theorem blocks_are_closed (w : World) (argv : list string) :
  (brackets (trace w argv) = [] \/
   brackets (trace w argv) = [TempIn; TempOut] \/
   brackets (trace w argv) = [TempIn; SessionIn; SessionOut; TempOut]) /\
  (forall a, parse_args w argv = ret a ->
     (enters_temp_dir w a = false -> brackets (trace w argv) = []) /\
     (enters_temp_dir w a = true -> output_dir_usable w a = false ->
      brackets (trace w argv) = [TempIn; TempOut]) /\
     (reaches_lookup w a = true ->
      brackets (trace w argv) = [TempIn; SessionIn; SessionOut; TempOut])).
Proof.
  assert (Hparsed : forall a, parse_args w argv = ret a ->
     (enters_temp_dir w a = false -> brackets (trace w argv) = []) /\
     (enters_temp_dir w a = true -> output_dir_usable w a = false ->
      brackets (trace w argv) = [TempIn; TempOut]) /\
     (reaches_lookup w a = true ->
      brackets (trace w argv) = [TempIn; SessionIn; SessionOut; TempOut])).
  { intros a Hparse. unfold trace. rewrite (main_parsed _ _ _ Hparse).
    split; [|split].
    - unfold enters_temp_dir. intros Ht.
      unfold ending_of. rewrite privileged_condition.
      destruct (privileged w a); cbn [negb andb] in *; [|reflexivity].
      apply negb_false_iff in Ht. rewrite Ht. reflexivity.
    - intros Ht Ho. rewrite (enters_temp_dir_ending _ _ Ht).
      unfold output_dir_usable in Ho.
      destruct (failing (output_dir a) (w_isdir w)); [|discriminate].
      cbn. unfold testing_events. destruct (testing a); reflexivity.
    - unfold reaches_lookup, output_dir_usable.
      intros [Ht Ho]%andb_prop. rewrite (enters_temp_dir_ending _ _ Ht).
      destruct (failing (output_dir a) (w_isdir w)); [discriminate|].
      repeat match goal with
             | |- context [if ?c then _ else _] => destruct c
             | |- context [match ?x with Some _ => _ | None => _ end] =>
                 destruct x
             end;
        unfold ending_run, validated, in_temp, start_events, testing_events;
        destruct (testing a); try destruct (print_commands a); reflexivity. }
  split; [|exact Hparsed].
  destruct (parse_args_cases w argv) as [[a Hparse]|[Hparse|[pe Hparse]]].
  - destruct (Hparsed a Hparse) as (H0 & H1 & H2).
    destruct (enters_temp_dir w a) eqn:Ht; [|auto].
    destruct (output_dir_usable w a) eqn:Ho; [|auto].
    right. right. apply H2. unfold reaches_lookup. now rewrite Ht, Ho.
  - left. unfold trace. rewrite (main_not_parsed _ _ _ _ Hparse). reflexivity.
  - left. unfold trace. rewrite (main_not_parsed _ _ _ _ Hparse). reflexivity.
Qed.

Lemma blocks_are_closed_witness :
  brackets (trace root_world ["-w"; "nope"; "-u"; "a"; "-U"; "b"]) =
    [TempIn; SessionIn; SessionOut; TempOut]
  /\ brackets (trace user_world ["-w"; "osint"]) = [].
Proof.
  split.
  - destruct (blocks_are_closed root_world
                ["-w"; "nope"; "-u"; "a"; "-U"; "b"]) as (_ & H).
    apply (H (args_of root_world ["-w"; "nope"; "-u"; "a"; "-U"; "b"])
             eq_refl).
    reflexivity.
  - destruct (blocks_are_closed user_world ["-w"; "osint"]) as (_ & H).
    apply (H (args_of user_world ["-w"; "osint"]) eq_refl).
    reflexivity.
Defined.

(** ** The arguments handed to the producer and to the console *)

Lemma before_lookup_ending (w : World) (a : Namespace) :
  reaches_lookup w a = false ->
  ending_of w a = NotPrivileged \/ ending_of w a = ListedWorkspaces \/
  exists d, ending_of w a = OutputDirMissing d.
Proof.
  unfold reaches_lookup, enters_temp_dir, output_dir_usable, ending_of.
  rewrite privileged_condition.
  destruct (privileged w a); cbn [negb andb]; [|auto].
  destruct (list_ a); cbn [negb andb]; [auto|].
  destruct (failing (output_dir a) (w_isdir w)) as [d|]; [eauto|].
  discriminate.
Qed.

Lemma arguments_in_trace (w : World) (argv : list string) (a x : Namespace) :
  parse_args w argv = ret a ->
  In (EvProducerInit x) (trace w argv) \/ In (EvConsole x) (trace w argv) ->
  x = effective_args w a /\ reaches_lookup w a = true.
Proof.
  intros Hparse. unfold trace. rewrite (main_parsed _ _ _ Hparse).
  destruct (reaches_lookup w a) eqn:Hr.
  - intros Hin. split; [|reflexivity]. revert Hin.
    by_ending w a; try destruct (print_commands a);
      (intros [H|H]; cbn in H;
       repeat (destruct H as [H|H]; [try discriminate H|]);
       try contradiction; now injection H).
  - destruct (before_lookup_ending _ _ Hr) as [H|[H|[d H]]]; rewrite H;
      unfold ending_run, in_temp, testing_events; destruct (testing a);
      cbn [handled fst snd app]; intros [Hin|Hin]; exfalso; revert Hin;
      absent.
Qed.

(** [arguments = vars(args)] is the namespace itself.  For a command line
    that parses, [producer.init] is called exactly when the run gets to
    the workspace lookup; it and the console receive the same namespace,
    the parsed one with [output_dir] set; and that directory is either the
    temporary directory or the non-empty [-o] value, which is then an
    existing directory. *)
Theorem arguments_are_shared (w : World) (argv : list string)
  (a : Namespace) :
  parse_args w argv = ret a ->
  (reaches_lookup w a = true <->
   In (EvProducerInit (effective_args w a)) (trace w argv)) /\
  (forall x, In (EvProducerInit x) (trace w argv) \/
             In (EvConsole x) (trace w argv) ->
     x = set_output_dir a (Some (working_dir w a)) /\
     In (EvProducerInit x) (trace w argv) /\
     (working_dir w a = w_tempdir w \/
      (output_dir a = Some (working_dir w a) /\ working_dir w a <> "" /\
       w_isdir w (working_dir w a) = true))).
Proof.
  intros Hparse. split.
  - split.
    + apply (init_in_trace _ _ _ Hparse).
    + intros Hin.
      apply (arguments_in_trace _ _ _ _ Hparse (or_introl Hin)).
  - intros x Hx.
    destruct (arguments_in_trace _ _ _ _ Hparse Hx) as [-> Hr].
    split; [reflexivity|]. split; [apply (init_in_trace _ _ _ Hparse Hr)|].
    unfold reaches_lookup, output_dir_usable in Hr.
    apply andb_prop in Hr as [_ Ho].
    unfold working_dir.
    destruct (output_dir a) as [d|] eqn:Hd; [|now left].
    destruct (d =? "")%string eqn:He; [now left|].
    right. apply String.eqb_neq in He. split; [reflexivity|].
    split; [exact He|].
    destruct (failing (Some d) (w_isdir w)) eqn:F; [discriminate|].
    apply (failing_none _ _ _ F eq_refl He).
Qed.

Lemma arguments_are_shared_witness :
  In (EvProducerInit
        (effective_args root_world
           (args_of root_world ["-w"; "nope"; "-o"; "/tmp/out"])))
     (trace root_world ["-w"; "nope"; "-o"; "/tmp/out"]).
Proof.
  destruct (arguments_are_shared root_world
              ["-w"; "nope"; "-o"; "/tmp/out"]
              (args_of root_world ["-w"; "nope"; "-o"; "/tmp/out"]) eq_refl)
    as [[H _] _].
  apply H. reflexivity.
Defined.

(** ** The scan of the command line *)


Section ScanReaches.

Variable specs : list option_spec.
Variable t : string.
Variable tail : list string.

(** A property of outcomes that every refusal has. *)
Variable Q : parsed -> Prop.
Hypothesis Q_help : Q ParseHelp.
Hypothesis Q_error : forall e, Q (ParseError e).

Hypothesis t_is_option : is_option specs t = true.
Hypothesis Q_at_t :
  forall ns seen extras, Q (parse_loop specs (t :: tail) 0 ns seen extras).


End ScanReaches.



(** ** What the option table implies for every command line *)
























(** ** Word lists and the testing switch *)

(** The word lists are checked in the order of the command line and before
    the user, password and combo files: for a run that gets as far as the
    file checks, the exception names the first word list that does not
    exist, whatever else is missing. *)
Theorem first_missing_wordlist_reported (w : World) (argv : list string)
  (a : Namespace) (l1 l2 : list string) (f : string) :
  parse_args w argv = ret a ->
  reaches_file_checks w a = true ->
  wordlist_files a = Some (l1 ++ f :: l2) ->
  (forall x, In x l1 -> w_exists w x = true) ->
  w_exists w f = false ->
  main_body w argv =
    (startup_events ++ validated w a [],
     Raise (FileNotFoundError (wordlist_message f))).
Proof.
  intros Hparse Hr Hl H1 Hf.
  apply (body_raise_cases _ _ _ Hparse).
  rewrite (reaches_file_checks_ending _ _ Hr).
  unfold first_missing_wordlist. rewrite Hl.
  rewrite (find_first _ l1 l2 f); [reflexivity| |now rewrite Hf].
  intros y Hy. now rewrite (H1 y Hy).
Qed.

Lemma first_missing_wordlist_reported_witness :
  main_body root_world
    ["-w"; "osint"; "-C"; "gone.txt"; "-L"; "words.txt"; "a.txt"; "b.txt"] =
    (startup_events ++
     validated root_world
       (args_of root_world
          ["-w"; "osint"; "-C"; "gone.txt"; "-L"; "words.txt"; "a.txt";
           "b.txt"]) [],
     Raise (FileNotFoundError (wordlist_message "a.txt"))).
Proof.
  apply (first_missing_wordlist_reported root_world _ _
           ["words.txt"] ["b.txt"] "a.txt").
  - reflexivity.
  - reflexivity.
  - reflexivity.
  - intros x [<-|[]]. reflexivity.
  - reflexivity.
Defined.




(** [engine.production = False] is executed exactly in the runs with
    [--testing] that enter the block of the temporary directory, as the
    first statement of the block: a listing run prints the workspaces
    without the switch, [--testing] or not. *)
Theorem testing_switch (w : World) (argv : list string) (a : Namespace) :
  parse_args w argv = ret a ->
  (In EvSetTesting (trace w argv) <->
   testing a = true /\ enters_temp_dir w a = true) /\
  (testing a = true -> enters_temp_dir w a = true ->
   exists rest,
     trace w argv =
       startup_events ++
       EvTempCreate (w_tempdir w) :: EvSetTesting :: rest) /\
  (list_ a = true -> ~ In EvSetTesting (trace w argv)).
Proof.
  intros Hparse.
  assert (Hout : enters_temp_dir w a = false ->
                 ~ In EvSetTesting (trace w argv)).
  { intros Ht. unfold trace. rewrite (main_parsed _ _ _ Hparse).
    unfold enters_temp_dir in Ht. unfold ending_of.
    rewrite privileged_condition.
    destruct (privileged w a); cbn [negb andb] in *; [|absent].
    apply negb_false_iff in Ht. rewrite Ht. absent. }
  assert (Hin : enters_temp_dir w a = true ->
     (testing a = true ->
      exists rest, trace w argv =
        startup_events ++ EvTempCreate (w_tempdir w) :: EvSetTesting :: rest)
     /\ (testing a = false -> ~ In EvSetTesting (trace w argv))).
  { intros Ht. unfold trace. rewrite (main_parsed _ _ _ Hparse).
    rewrite (enters_temp_dir_ending _ _ Ht). split; intros Hte.
    - repeat match goal with
             | |- context [if ?c then _ else _] => destruct c
             | |- context [match ?x with Some _ => _ | None => _ end] =>
                 destruct x
             end;
        unfold ending_run, validated, in_temp, testing_events;
        rewrite Hte; cbn [handled fst snd app]; eexists; reflexivity.
    - repeat match goal with
             | |- context [if ?c then _ else _] => destruct c
             | |- context [match ?x with Some _ => _ | None => _ end] =>
                 destruct x
             end;
        unfold ending_run, validated, in_temp, start_events, testing_events;
        rewrite Hte; try destruct (print_commands a);
        cbn [handled fst snd app]; absent. }
  split; [|split].
  - split.
    + intros H. destruct (enters_temp_dir w a) eqn:Ht.
      * destruct (testing a) eqn:Hte; [auto|].
        now destruct (proj2 (Hin eq_refl) eq_refl).
      * now destruct (Hout eq_refl).
    + intros [Hte Ht]. destruct (proj1 (Hin Ht) Hte) as [rest ->].
      cbn. present.
  - intros Hte Ht. apply (proj1 (Hin Ht) Hte).
  - intros Hl. apply Hout. unfold enters_temp_dir. rewrite Hl.
    apply andb_false_r.
Qed.

Lemma testing_switch_witness :
  ~ In EvSetTesting (trace root_world ["-w"; "osint"; "--testing"; "-l"])
  /\ In EvSetTesting (trace root_world ["-w"; "osint"; "--testing"]).
Proof.
  split.
  - destruct (testing_switch root_world
                ["-w"; "osint"; "--testing"; "-l"]
                (args_of root_world ["-w"; "osint"; "--testing"; "-l"])
                eq_refl) as (_ & _ & H).
    apply H. reflexivity.
  - destruct (testing_switch root_world ["-w"; "osint"; "--testing"]
                (args_of root_world ["-w"; "osint"; "--testing"])
                eq_refl) as ([_ H] & _).
    apply H. split; reflexivity.
Defined.

(** ** Collection starts only on a valid configuration *)

Lemma started_conditions (w : World) (a : Namespace) :
  ending_of w a = Started ->
  reaches_file_checks w a = true /\
  first_missing_wordlist w a = None /\
  failing (user_file a) (w_exists w) = None /\
  failing (password_file a) (w_exists w) = None /\
  failing (combo_file a) (w_exists w) = None.
Proof.
  unfold ending_of, reaches_file_checks, reaches_validation, reaches_lookup,
    enters_temp_dir, output_dir_usable, user_conflict, password_conflict.
  rewrite privileged_condition.
  destruct (privileged w a); cbn [negb andb]; [|discriminate].
  destruct (list_ a); cbn [negb andb]; [discriminate|].
  destruct (failing (output_dir a) (w_isdir w)); [discriminate|].
  destruct (mem (workspace a) (w_workspaces w)); cbn [negb andb];
    [|discriminate].
  destruct (truthy (user a) && truthy (user_file a)); [discriminate|].
  destruct (truthy (password a) && truthy (password_file a));
    [discriminate|].
  destruct (first_missing_wordlist w a); [discriminate|].
  destruct (failing (user_file a) (w_exists w)); [discriminate|].
  destruct (failing (password_file a) (w_exists w)); [discriminate|].
  destruct (failing (combo_file a) (w_exists w)); [discriminate|].
  auto.
Qed.

(** The producer is started, or the console entered, only on a valid
    configuration: a run with such an event parsed its command line, was
    run by root or in print-only mode, is no listing, has a usable output
    directory and a workspace of the catalogue, has no pair of conflicting
    credential options, and every file it references exists. *)
Theorem collection_needs_valid_configuration (w : World)
  (argv : list string) (e : event) :
  In e (trace w argv) -> is_collection e = true ->
  exists a,
    parse_args w argv = ret a /\
    privileged w a = true /\ list_ a = false /\
    output_dir_usable w a = true /\
    mem (workspace a) (w_workspaces w) = true /\
    user_conflict a = false /\ password_conflict a = false /\
    (forall f, referenced a f -> w_exists w f = true).
Proof.
  intros Hin He.
  destruct (parse_args_cases w argv) as [[a Hparse]|[Hparse|[pe Hparse]]].
  - exists a. split; [exact Hparse|].
    assert (Hs : ending_of w a = Started).
    { destruct (ending_of w a) eqn:E; try reflexivity;
        rewrite (collection_only_when_started _ _ _ Hparse) in He;
        try discriminate He; try exact Hin; rewrite E; discriminate. }
    destruct (started_conditions _ _ Hs) as (Hr & Hw & Hu & Hp & Hc).
    unfold reaches_file_checks, reaches_validation, reaches_lookup,
      enters_temp_dir in Hr.
    apply andb_prop in Hr as [[[[[Hpr Hl]%andb_prop Ho]%andb_prop Hm]%andb_prop
                                Huc]%andb_prop Hpc].
    apply negb_true_iff in Hl, Huc, Hpc.
    repeat (split; [assumption|]).
    intros f [(l & Hl' & Hf)|[[Hf Hne]|[[Hf Hne]|[Hf Hne]]]].
    + apply (first_missing_wordlist_none _ _ _ _ Hw Hl' Hf).
    + apply (failing_none _ _ _ Hu Hf Hne).
    + apply (failing_none _ _ _ Hp Hf Hne).
    + apply (failing_none _ _ _ Hc Hf Hne).
  - exfalso. revert Hin. unfold trace.
    rewrite (main_not_parsed _ _ _ _ Hparse). intros Hin. cbn in Hin.
    repeat (destruct Hin as [<-|Hin]; [discriminate He|]). exact Hin.
  - exfalso. revert Hin. unfold trace.
    rewrite (main_not_parsed _ _ _ _ Hparse). intros Hin. cbn in Hin.
    repeat (destruct Hin as [<-|Hin]; [discriminate He|]). exact Hin.
Qed.

Lemma collection_needs_valid_configuration_witness :
  exists a,
    parse_args user_world ["-w"; "osint"; "-S"; "-U"; "users.txt"] = ret a /\
    privileged user_world a = true /\ list_ a = false /\
    output_dir_usable user_world a = true /\
    mem (workspace a) (w_workspaces user_world) = true /\
    user_conflict a = false /\ password_conflict a = false /\
    (forall f, referenced a f -> w_exists user_world f = true).
Proof.
  apply (collection_needs_valid_configuration user_world
           ["-w"; "osint"; "-S"; "-U"; "users.txt"] EvProducerStart).
  - vm_compute. present.
  - reflexivity.
Defined.
